(** * codis-fe: the dashboard route table and its loader

    A shallow embedding of [cmd/fe/main.go]: the [ConfigLoader] that polls the
    dashboard list ([Reload], [Load]) and the lock-guarded [ReverseProxy]
    route table ([Update], [GetProxy], [Names]).

    Methods are written in a small monad that threads the receiver, collects
    a log of the effects the method performs, and can stop with a fault (a
    [Lock] on a held mutex, a Go run-time panic).  Every method of the table
    holds the mutex from its first statement to its return, so a call runs
    from a state in which the mutex is free: that is the hypothesis
    [mutex r = false] of the statements below. *)

From stdpp Require Import gmap strings list fin_maps sorting.

Local Open Scope string_scope.
Local Open Scope list_scope.

(** ** The method monad *)

Inductive fault :=
| Blocked            (* Lock on a mutex that is already held *)
| UnlockOfUnlocked   (* sync: unlock of unlocked mutex *)
| NilMapWrite        (* assignment to entry in nil map *)
| NilDereference.    (* invalid memory address or nil pointer dereference *)

Inductive outcome (S E A : Type) :=
| Done (a : A) (s : S) (log : list E)
| Fault (f : fault).
Arguments Done {S E A} a s log.
Arguments Fault {S E A} f.

Definition method (S E A : Type) : Type := S → outcome S E A.

Definition ret {S E A} (a : A) : method S E A := λ s, Done a s [].

Definition bind {S E A B} (m : method S E A) (k : A → method S E B)
  : method S E B :=
  λ s, match m s with
       | Fault f => Fault f
       | Done a s1 l1 =>
           match k a s1 with
           | Fault f => Fault f
           | Done b s2 l2 => Done b s2 (l1 ++ l2)
           end
       end.

Definition get {S E} : method S E S := λ s, Done s s [].
Definition put {S E} (s : S) : method S E unit := λ _, Done tt s [].
Definition tell {S E} (e : E) : method S E unit := λ s, Done tt s [e].
Definition raise {S E A} (f : fault) : method S E A := λ _, Fault f.

Declare Scope method_scope.
Delimit Scope method_scope with method.
Notation "x <- m ;; k" := (bind m (λ x, k))
  (at level 100, m at next level, right associativity) : method_scope.
Notation "m ;; k" := (bind m (λ _, k))
  (at level 100, right associativity) : method_scope.
Open Scope method_scope.

(** [for x := range xs { body }] over the elements in the order given. *)
Fixpoint for_range {S E X} (xs : list X) (body : X → method S E unit)
  : method S E unit :=
  match xs with
  | [] => ret tt
  | x :: xs' => body x ;; for_range xs' body
  end.

(** The receiver as a run leaves it, when the run returns. *)
Definition state_of {S E A} (o : outcome S E A) : option S :=
  match o with Done _ s _ => Some s | Fault _ => None end.

(** ** The route table *)

Module RouteTable.

(** [url.URL], the two fields [Update] sets. *)
Record URL := { Scheme : string; Host : string }.

(** The process-wide [roundTripper]: the [http.Transport] built by [init],
    dialling with a ten second timeout. *)
Variant RoundTripper := DialTimeout (seconds : Z).
Definition roundTripper : RoundTripper := DialTimeout 10.

(** [httputil.ReverseProxy], the forwarding target: the single host it
    rewrites requests to, and its transport. *)
Record Proxy := { target : URL; Transport : option RoundTripper }.

Definition NewSingleHostReverseProxy (u : URL) : Proxy :=
  {| target := u; Transport := None |}.

(** [type ReverseProxy struct { sync.Mutex; routes map[string]*httputil.ReverseProxy }].
    [mutex] is true while the lock is held; [routes] is [None] for the nil
    map of a fresh table. *)
Record ReverseProxy := {
  mutex : bool;
  routes : option (gmap string Proxy)
}.

(** [router := &ReverseProxy{}] *)
Definition fresh : ReverseProxy := {| mutex := false; routes := None |}.

(** What a method does to the shared struct, in program order. *)
Inductive event :=
| EvLock
| EvUnlock
| EvMake                                  (* r.routes = make(map...) *)
| EvStore (name : string) (p : Proxy).    (* r.routes[name] = p *)

Abbreviation M := (method ReverseProxy event).

Definition Lock : M unit :=
  r <- get ;;
  if mutex r then raise Blocked
  else put {| mutex := true; routes := routes r |} ;; tell EvLock.

Definition Unlock : M unit :=
  r <- get ;;
  if mutex r then put {| mutex := false; routes := routes r |} ;; tell EvUnlock
  else raise UnlockOfUnlocked.

Definition make_routes : M unit :=
  r <- get ;;
  put {| mutex := mutex r; routes := Some ∅ |} ;; tell EvMake.

Definition store (name : string) (p : Proxy) : M unit :=
  r <- get ;;
  match routes r with
  | None => raise NilMapWrite
  | Some t => put {| mutex := mutex r; routes := Some (<[name := p]> t) |} ;;
              tell (EvStore name p)
  end.

(** The loop body's three statements after the guard. *)
Definition new_target (host : string) : Proxy :=
  let u := {| Scheme := "http"; Host := host |} in
  let p := NewSingleHostReverseProxy u in
  {| target := target p; Transport := Some roundTripper |}.

(** [Update], with the order in which [range routes] visits the map given
    by [kvs] (Go leaves it unspecified).  The deferred [Unlock] runs last. *)
Definition Update_ranged (kvs : list (string * string)) : M unit :=
  Lock ;;
  make_routes ;;
  for_range kvs (λ '(name, host),
    if (name =? "") || (host =? "") then ret tt
    else store name (new_target host)) ;;
  Unlock.

Definition Update (routes : gmap string string) : M unit :=
  Update_ranged (map_to_list routes).

Definition GetProxy (name : string) : M (option Proxy) :=
  Lock ;;
  r <- get ;;
  match routes r with
  | None => Unlock ;; ret None
  | Some t => Unlock ;; ret (t !! name)
  end.

(** [Names], with the order of [range r.routes] given by [order]. *)
Definition Names_ranged (order : gmap string Proxy → list (string * Proxy))
  : M (list string) :=
  Lock ;;
  r <- get ;;
  let names :=
    match routes r with
    | Some t => foldl (λ names '(name, _), names ++ [name]) [] (order t)
    | None => []
    end in
  Unlock ;; ret names.

Definition Names : M (list string) := Names_ranged map_to_list.

(** The catch-all handler of [main]: [req.URL.Query().Get("forward")] is the
    empty string when the request has no such parameter. *)
Inductive response :=
| Served (p : Proxy)     (* p.ServeHTTP(w, req) *)
| Forbidden.             (* w.WriteHeader(http.StatusForbidden) *)

Definition dispatch (forward : option string) : M response :=
  let name := default "" forward in
  p <- GetProxy name ;;
  match p with
  | Some p => ret (Served p)
  | None => ret Forbidden
  end.

(** *** What the claims say about the table *)

(** An entry [Update] keeps: neither the name nor the address is empty. *)
Definition valid (kv : string * string) : Prop := kv.1 ≠ "" ∧ kv.2 ≠ "".

Global Instance valid_dec kv : Decision (valid kv).
Proof. unfold valid. apply _. Defined.

(** The snapshot the spec describes for a mapping: one forwarding target for
    each valid entry. *)
Definition snapshot (m : gmap string string) : gmap string Proxy :=
  new_target <$> filter valid m.

(** One turn of the loop of [Update], on the table alone. *)
Definition loop_step (t : gmap string Proxy) (kv : string * string)
  : gmap string Proxy :=
  if (kv.1 =? "") || (kv.2 =? "") then t else <[kv.1 := new_target kv.2]> t.

(** The stores the loop of [Update] performs. *)
Definition stores (kvs : list (string * string)) : list event :=
  (λ kv, EvStore kv.1 (new_target kv.2)) <$> filter valid kvs.

(** The table operations of a log that run while the lock is held, and
    those that run while it is free; [held] is the lock at the start. *)
Fixpoint under_lock (held : bool) (log : list event) : list event :=
  match log with
  | [] => []
  | EvLock :: log' => under_lock true log'
  | EvUnlock :: log' => under_lock false log'
  | e :: log' =>
      if held then e :: under_lock held log' else under_lock held log'
  end.

Fixpoint outside_lock (held : bool) (log : list event) : list event :=
  match log with
  | [] => []
  | EvLock :: log' => outside_lock true log'
  | EvUnlock :: log' => outside_lock false log'
  | e :: log' =>
      if held then outside_lock held log' else e :: outside_lock held log'
  end.

(** States of the shared table that the program can be in between two
    method calls: the fresh table, and what an [Update] leaves, whatever
    order its [range] took. *)
Inductive reachable : ReverseProxy → Prop :=
| reach_fresh : reachable fresh
| reach_Update r m kvs r' log :
    reachable r →
    kvs ≡ₚ map_to_list m →
    Update_ranged kvs r = Done tt r' log →
    reachable r'.

End RouteTable.

(** ** The configuration loader *)

Module Loader.

(** [time.Time] as the loader uses it: the instant (seconds and nanoseconds;
    file times and the zero value carry no monotonic reading) and the
    location it is displayed in. *)
Record Time := { sec : Z; nsec : Z; loc : string }.

(** [t.Equal(u)]: the same instant, whatever the locations. *)
Definition Equal (t u : Time) : bool :=
  (sec t =? sec u)%Z && (nsec t =? nsec u)%Z.

(** The zero value of [time.Time]. *)
Definition zero_Time : Time := {| sec := 0; nsec := 0; loc := "UTC" |}.

(** [type ConfigLoader struct { last time.Time }] *)
Record ConfigLoader := { last : Time }.

(** [loader := &ConfigLoader{}] *)
Definition fresh : ConfigLoader := {| last := zero_Time |}.

(** One element of the decoded list, [struct { Name, Dashboard string }]. *)
Record Entry := { Name : string; Dashboard : string }.

(** [os.FileInfo], the one method [Reload] calls. *)
Record FileInfo := { ModTime : Time }.

(** The calls a method makes outside the process, in program order. *)
Inductive event :=
| EvStat (path : string)
| EvReadFile (path : string)
| EvUnmarshal (b : list Byte.byte).

Section Methods.

(** Non-nil values of Go's [error]; [None] is the nil error. *)
Variable Err : Type.
Abbreviation error := (option Err).

(** [errors.Trace] of pkg/utils/errors, which is not part of this file. *)
Variable Trace : error → error.

(** [json.Unmarshal(b, &list)] for [list []*struct{...}]: the error, or
    the decoded list, whose elements are pointers (a JSON [null] element
    decodes to the nil pointer, [None]). *)
Variable Unmarshal : list Byte.byte → Err + list (option Entry).

(** The file system at the time of a call. *)
Record FileSystem := {
  Stat : string → Err + FileInfo;
  ReadFile : string → Err + list Byte.byte
}.

Abbreviation L := (method ConfigLoader event).

(** [for _, e := range list { m[e.Name] = e.Dashboard }] *)
Fixpoint Load_range (list : list (option Entry)) (m : gmap string string)
  : L (gmap string string) :=
  match list with
  | [] => ret m
  | None :: _ => raise NilDereference
  | Some e :: rest => Load_range rest (<[Name e := Dashboard e]> m)
  end.

Definition Load (fs : FileSystem) (path : string)
  : L (option (gmap string string) * error) :=
  tell (EvReadFile path) ;;
  match ReadFile fs path with
  | inl err => ret (None, Trace (Some err))
  | inr b =>
      tell (EvUnmarshal b) ;;
      match Unmarshal b with
      | inl err => ret (None, Trace (Some err))
      | inr list =>
          m <- Load_range list ∅ ;;
          ret (Some m, None)
      end
  end.

Definition Reload (fs : FileSystem) (path : string)
  : L (option (gmap string string) * error) :=
  l <- get ;;
  tell (EvStat path) ;;
  match Stat fs path with
  | inl err => ret (None, Trace (Some err))
  | inr fi =>
      if Equal (ModTime fi) (last l) then ret (None, Trace None)
      else
        res <- Load fs path ;;
        let '(m, err) := res in
        match err with
        | Some _ => ret (None, err)
        | None => put {| last := ModTime fi |} ;; ret (m, None)
        end
  end.

End Methods.

Arguments Stat {Err} _ _.
Arguments ReadFile {Err} _ _.
Arguments Load {Err} Trace Unmarshal fs path _.
Arguments Reload {Err} Trace Unmarshal fs path _.

(** The mapping the loop of [Load] builds from a list of records. *)
Definition built (es : list Entry) : gmap string string :=
  foldl (λ m e, <[Name e := Dashboard e]> m) ∅ es.

End Loader.

(** ** The goroutines of [main] *)

Module Main.

(** The two objects [main] creates and shares between its goroutines. *)
Record Process := {
  loader : Loader.ConfigLoader;
  router : RouteTable.ReverseProxy
}.

(** [loader := &ConfigLoader{}; router := &ReverseProxy{}] *)
Definition start : Process :=
  {| loader := Loader.fresh; router := RouteTable.fresh |}.

(** [sort.Sort(sort.StringSlice(names))]: the names in ascending order of
    Go's string comparison, which is the bytewise lexicographic order of
    [String.le].  The order is total and antisymmetric, so the sorted list
    does not depend on the sorting algorithm. *)
Definition sort_Strings (names : list string) : list string :=
  merge_sort String.le names.

Section Goroutines.

Context {Err : Type}.
Variable Trace : option Err → option Err.
Variable Unmarshal : list Byte.byte → Err + list (option Loader.Entry).

(** [rpc.ApiResponseJson] of pkg/utils/rpc, which is not part of this file:
    the status code and the body for a value. *)
Variable ApiResponseJson : list string → Z * string.

(** What the reload goroutine does, in program order: the calls of the
    loader, the steps on the table, its log lines and its sleeps. *)
Inductive event :=
| OfLoader (e : Loader.event)
| OfRouter (e : RouteTable.event)
| Warn (err : Err)                      (* log.WarnErrorf(err, ...) *)
| Info (m : gmap string string)         (* log.Infof("reload %s = %v", ...) *)
| Sleep (seconds : Z).                  (* time.Sleep(time.Second * n) *)

Abbreviation T := (method Process event).

(** A method of the loader, called on [loader]. *)
Definition on_loader {A} (m : method Loader.ConfigLoader Loader.event A)
  : T A :=
  λ p, match m (loader p) with
       | Fault f => Fault f
       | Done a l log =>
           Done a {| loader := l; router := router p |} (OfLoader <$> log)
       end.

(** A method of the table, called on [router]. *)
Definition on_router {A} (m : method RouteTable.ReverseProxy RouteTable.event A)
  : T A :=
  λ p, match m (router p) with
       | Fault f => Fault f
       | Done a r log =>
           Done a {| loader := loader p; router := r |} (OfRouter <$> log)
       end.

(** One turn of the loop of the reload goroutine, with the file system as
    it is during the turn and the order [Update] ranges in. *)
Definition reload_turn (fs : Loader.FileSystem Err) (config : string)
    (order : gmap string string → list (string * string)) : T unit :=
  res <- on_loader (Loader.Reload Trace Unmarshal fs config) ;;
  let '(m, err) := res in
  match err with
  | Some e => tell (Warn e) ;; tell (Sleep 5)
  | None =>
      match m with
      | Some m => tell (Info m) ;; on_router (RouteTable.Update_ranged (order m))
      | None => ret tt
      end ;;
      tell (Sleep 1)
  end.

(** The first turns of the loop, one per element of [envs]. *)
Definition reload_loop (config : string)
    (envs : list (Loader.FileSystem Err
                  * (gmap string string → list (string * string))))
  : T unit :=
  for_range envs (λ env, reload_turn env.1 config env.2).

(** The handler of [/list], with the order [Names] ranges in. *)
Definition list_handler
    (order : gmap string RouteTable.Proxy → list (string * RouteTable.Proxy))
  : method RouteTable.ReverseProxy RouteTable.event (Z * string) :=
  names <- RouteTable.Names_ranged order ;;
  ret (ApiResponseJson (sort_Strings names)).

End Goroutines.

Arguments OfLoader {Err} e.
Arguments OfRouter {Err} e.
Arguments Warn {Err} err.
Arguments Info {Err} m.
Arguments Sleep {Err} seconds.

(** An order in which Go may range over a map: some order of its entries. *)
Definition range_order {V} (order : gmap string V → list (string * V)) : Prop :=
  ∀ m, order m ≡ₚ map_to_list m.

(** What the reload loop keeps: the table is in a reachable state, and as
    long as no map was installed the loader remembers no modification
    time. *)
Definition consistent (p : Process) : Prop :=
  RouteTable.reachable (router p)
  ∧ (RouteTable.routes (router p) = None →
     Loader.last (loader p) = Loader.zero_Time).

End Main.

(** ** Sample inputs *)

Module Samples.
Import Loader.

(** JSON text of a dashboard list, as codis-admin writes it. *)
Definition dquote : string := String (Ascii.ascii_of_nat 34) EmptyString.

Definition json_string (s : string) : string := dquote ++ s ++ dquote.

Definition json_record (e : Entry) : string :=
  "{" ++ json_string "name" ++ ":" ++ json_string (Name e) ++ ","
      ++ json_string "dashboard" ++ ":" ++ json_string (Dashboard e) ++ "}".

Definition json_element (e : option Entry) : string :=
  match e with Some e => json_record e | None => "null" end.

Definition json_list (l : list (option Entry)) : string :=
  "[" ++ String.concat "," (json_element <$> l) ++ "]".

Definition record (name dashboard : string) : option Entry :=
  Some {| Name := name; Dashboard := dashboard |}.

(** The lists of the examples: invalid records among valid ones, a name
    given twice, a name whose second record has no address, a null. *)
Definition list_invalid : list (option Entry) :=
  [record "" "h1:1"; record "a" ""; record "b" "h2:2"].
Definition list_duplicate : list (option Entry) :=
  [record "a" "h1:1"; record "a" "h2:2"].
Definition list_shadowed : list (option Entry) :=
  [record "a" "h1:1"; record "a" ""].
Definition list_null : list (option Entry) := [None].

Definition documents : list (list (option Entry)) :=
  [list_invalid; list_duplicate; list_shadowed; list_null; []].

(** A truncated file: not JSON. *)
Definition malformed : list Byte.byte := String.list_byte_of_string "[{".

(** What [json.Unmarshal] returns on the texts of [documents] and on
    [malformed]; this table stands for the decoder at those inputs only. *)
Definition Unmarshal (b : list Byte.byte) : string + list (option Entry) :=
  match
    find (λ d, String.eqb (json_list d) (String.string_of_list_byte b)) documents
  with
  | Some d => inr d
  | None => inl "unexpected end of JSON input"
  end.

(** An [errors.Trace] that wraps a non-nil error and keeps nil. *)
Definition Trace (err : option string) : option string :=
  (λ msg, String.append "[stack] " msg) <$> err.

Definition config : string := "dashboards.json".

(** A file system holding the one file [config]. *)
Definition file_system (mtime : Time) (content : list Byte.byte)
  : FileSystem string :=
  {| Stat path :=
       if String.eqb path config then inr {| ModTime := mtime |}
       else inl "stat: no such file or directory";
     ReadFile path :=
       if String.eqb path config then inr content
       else inl "open: no such file or directory" |}.

Definition missing : FileSystem string :=
  {| Stat _ := inl "stat: no such file or directory";
     ReadFile _ := inl "open: no such file or directory" |}.

(** A file that can be inspected but not read. *)
Definition unreadable (mtime : Time) : FileSystem string :=
  {| Stat _ := inr {| ModTime := mtime |};
     ReadFile _ := inl "open: permission denied" |}.

Definition noon : Time := {| sec := 63900000000; nsec := 0; loc := "Local" |}.
Definition later : Time := {| sec := 63900000060; nsec := 5; loc := "Local" |}.

Definition text (l : list (option Entry)) : list Byte.byte :=
  String.list_byte_of_string (json_list l).

(** The mappings [Load] builds from the lists above, one with two valid
    entries, and one with no valid entry. *)
Definition mapping_invalid : gmap string string :=
  {[ "" := "h1:1"; "a" := ""; "b" := "h2:2" ]}.
Definition mapping_duplicate : gmap string string := {[ "a" := "h2:2" ]}.
Definition mapping_shadowed : gmap string string := {[ "a" := "" ]}.
Definition mapping_two : gmap string string :=
  {[ "a" := "h1:1"; "b" := "h2:2" ]}.
Definition mapping_no_valid : gmap string string :=
  {[ "" := "h1:1"; "a" := "" ]}.

(** Tables as an [Update] leaves them: one route, the route of
    [mapping_invalid], no route. *)
Definition table (t : gmap string RouteTable.Proxy) : RouteTable.ReverseProxy :=
  {| RouteTable.mutex := false; RouteTable.routes := Some t |}.
Definition one_route : RouteTable.ReverseProxy :=
  table {[ "old" := RouteTable.new_target "h0:0" ]}.
Definition route_b : RouteTable.ReverseProxy :=
  table {[ "b" := RouteTable.new_target "h2:2" ]}.
Definition no_route : RouteTable.ReverseProxy := table ∅.

(** The log of [Update mapping_two]. *)
Definition log_two : list RouteTable.event :=
  [RouteTable.EvLock; RouteTable.EvMake;
   RouteTable.EvStore "a" (RouteTable.new_target "h1:1");
   RouteTable.EvStore "b" (RouteTable.new_target "h2:2");
   RouteTable.EvUnlock].

(** The log of a [Reload] that inspects, reads and decodes [content]. *)
Definition log_load (content : list Byte.byte) : list event :=
  [EvStat config; EvReadFile config; EvUnmarshal content].

(** A table with two routes, a process that has loaded [list_invalid] at
    [noon], and a body for [/list] (the names between brackets; the
    envelope of the real [rpc.ApiResponseJson] is left out). *)
Definition two_routes : RouteTable.ReverseProxy :=
  table {[ "b" := RouteTable.new_target "h2:2";
           "a" := RouteTable.new_target "h1:1" ]}.

Definition loaded : Main.Process :=
  {| Main.loader := {| last := noon |}; Main.router := route_b |}.

Definition ApiResponseJson (names : list string) : Z * string :=
  (200%Z, String.append "[" (String.append (String.concat "," names) "]")).

(** The three records of [list_invalid]. *)
Definition records_invalid : list Entry :=
  [{| Name := ""; Dashboard := "h1:1" |};
   {| Name := "a"; Dashboard := "" |};
   {| Name := "b"; Dashboard := "h2:2" |}].

(** File systems of an outage, and of a first load followed by a broken
    edit, each with the order [Update] would range in. *)
Definition env (fs : FileSystem string)
  : FileSystem string * (gmap string string → list (string * string)) :=
  (fs, map_to_list).

Definition outage
  : list (FileSystem string
          * (gmap string string → list (string * string))) :=
  [env missing; env (unreadable later); env (file_system later malformed);
   env (file_system noon (text list_duplicate))].

Definition history
  : list (FileSystem string
          * (gmap string string → list (string * string))) :=
  [env missing; env (file_system noon (text list_invalid));
   env (file_system noon (text list_invalid));
   env (file_system later malformed)].

(** The logs of the reload loop on [history], from the start, and on
    [outage], from [loaded]. *)
Definition history_log : list (Main.event (Err := string)) :=
  [Main.OfLoader (EvStat config);
   Main.Warn "[stack] stat: no such file or directory"; Main.Sleep 5;
   Main.OfLoader (EvStat config); Main.OfLoader (EvReadFile config);
   Main.OfLoader (EvUnmarshal (text list_invalid));
   Main.Info mapping_invalid;
   Main.OfRouter RouteTable.EvLock; Main.OfRouter RouteTable.EvMake;
   Main.OfRouter (RouteTable.EvStore "b" (RouteTable.new_target "h2:2"));
   Main.OfRouter RouteTable.EvUnlock; Main.Sleep 1;
   Main.OfLoader (EvStat config); Main.Sleep 1;
   Main.OfLoader (EvStat config); Main.OfLoader (EvReadFile config);
   Main.OfLoader (EvUnmarshal malformed);
   Main.Warn "[stack] unexpected end of JSON input"; Main.Sleep 5].

Definition outage_log : list (Main.event (Err := string)) :=
  [Main.OfLoader (EvStat config);
   Main.Warn "[stack] stat: no such file or directory"; Main.Sleep 5;
   Main.OfLoader (EvStat config); Main.OfLoader (EvReadFile config);
   Main.Warn "[stack] open: permission denied"; Main.Sleep 5;
   Main.OfLoader (EvStat config); Main.OfLoader (EvReadFile config);
   Main.OfLoader (EvUnmarshal malformed);
   Main.Warn "[stack] unexpected end of JSON input"; Main.Sleep 5;
   Main.OfLoader (EvStat config); Main.Sleep 1].

End Samples.

(** ** Facts about the route table *)

Module RouteTableFacts.
Import RouteTable.

Lemma guard_valid kv :
  (kv.1 =? "") || (kv.2 =? "") = false ↔ valid kv.
Proof.
  unfold valid. rewrite orb_false_iff, !String.eqb_neq. tauto.
Qed.

Lemma guard_invalid kv :
  (kv.1 =? "") || (kv.2 =? "") = true ↔ ¬ valid kv.
Proof.
  rewrite <- guard_valid. destruct ((kv.1 =? "") || (kv.2 =? "")); split; congruence.
Qed.

Lemma for_range_Update kvs mu t :
  for_range kvs (λ '(name, host),
      if (name =? "") || (host =? "") then ret tt
      else store name (new_target host))
    {| mutex := mu; routes := Some t |}
  = Done tt {| mutex := mu; routes := Some (foldl loop_step t kvs) |}
      (stores kvs).
Proof.
  revert t. induction kvs as [|[name host] kvs IH]; intros t; [done|].
  cbn [for_range foldl]. unfold bind at 1, stores, loop_step at 2.
  cbn [fst snd].
  destruct ((name =? "") || (host =? "")) eqn:G.
  - rewrite filter_cons_False by (by apply (guard_invalid (name, host))).
    unfold ret at 1. by rewrite IH.
  - rewrite filter_cons_True by (by apply (guard_valid (name, host))).
    unfold store, bind, get, put, tell; cbn [routes mutex]. by rewrite IH.
Qed.

Lemma Update_ranged_run kvs r :
  mutex r = false →
  Update_ranged kvs r
  = Done tt {| mutex := false; routes := Some (foldl loop_step ∅ kvs) |}
      (EvLock :: EvMake :: stores kvs ++ [EvUnlock]).
Proof.
  destruct r as [mu rt]; cbn; intros ->.
  unfold Update_ranged, bind. cbn. by rewrite for_range_Update.
Qed.

(** The loop inserts in list order, so it builds the map of the kept
    entries read back to front. *)
Lemma foldl_loop_step kvs :
  foldl loop_step ∅ kvs
  = list_to_map (reverse (prod_map id new_target <$> filter valid kvs)).
Proof.
  induction kvs as [|kv kvs IH] using rev_ind; [done|].
  rewrite foldl_snoc, filter_app, fmap_app, reverse_app, IH.
  unfold loop_step at 1.
  destruct ((kv.1 =? "") || (kv.2 =? "")) eqn:G.
  - apply guard_invalid in G. by rewrite filter_cons_False, filter_nil.
  - apply guard_valid in G. rewrite filter_cons_True, filter_nil by done.
    by destruct kv.
Qed.

Lemma foldl_loop_step_snapshot kvs m :
  kvs ≡ₚ map_to_list m → foldl loop_step ∅ kvs = snapshot m.
Proof.
  intros Hp. rewrite foldl_loop_step. unfold snapshot.
  rewrite (map_filter_alt valid m), <- list_to_map_fmap.
  apply list_to_map_proper.
  - rewrite <- fmap_reverse, <- list_fmap_compose.
    rewrite reverse_Permutation.
    assert (Hnd : NoDup kvs.*1) by (rewrite Hp; apply NoDup_fst_map_to_list).
    eapply sublist_NoDup; [apply Hnd|].
    erewrite (list_fmap_ext (fst ∘ prod_map id new_target) fst);
      [|by intros ? []].
    apply fmap_sublist, sublist_filter.
  - by rewrite reverse_Permutation, Hp.
Qed.

Lemma length_stores kvs m :
  kvs ≡ₚ map_to_list m → length (stores kvs) = size (filter valid m).
Proof.
  intros Hp. unfold stores. rewrite length_fmap, Hp.
  rewrite <- (map_size_fmap new_target), <- length_map_to_list.
  rewrite <- (length_fmap (prod_map id new_target)).
  apply Permutation_length. symmetry.
  rewrite map_to_list_fmap. apply fmap_Permutation.
  rewrite (map_filter_alt valid m).
  apply map_to_list_to_map.
  eapply sublist_NoDup; [apply (NoDup_fst_map_to_list m)|].
  apply fmap_sublist, sublist_filter.
Qed.

Lemma under_lock_stores kvs log :
  under_lock true (stores kvs ++ log) = stores kvs ++ under_lock true log.
Proof.
  unfold stores. induction (filter valid kvs) as [|kv l IH]; [done|].
  cbn. by rewrite IH.
Qed.

Lemma outside_lock_stores kvs log :
  outside_lock true (stores kvs ++ log) = outside_lock true log.
Proof.
  unfold stores. induction (filter valid kvs) as [|kv l IH]; [done|].
  cbn. by rewrite IH.
Qed.

Lemma GetProxy_run name r :
  mutex r = false →
  GetProxy name r
  = Done (match routes r with Some t => t !! name | None => None end) r
      [EvLock; EvUnlock].
Proof.
  destruct r as [mu [t|]]; cbn; intros ->; reflexivity.
Qed.

Lemma Names_ranged_run order r :
  mutex r = false →
  Names_ranged order r
  = Done (match routes r with
          | Some t => (order t).*1
          | None => []
          end) r [EvLock; EvUnlock].
Proof.
  assert (Hfold : ∀ (l : list (string * Proxy)) acc,
    foldl (λ names '(name, _), names ++ [name]) acc l = acc ++ l.*1).
  { induction l as [|[n p] l IH]; intros acc; cbn.
    - by rewrite app_nil_r.
    - by rewrite IH, <- app_assoc. }
  destruct r as [mu [t|]]; cbn; intros ->; unfold Names_ranged, bind; cbn;
    [|done].
  by rewrite Hfold.
Qed.

Lemma reachable_inv r :
  reachable r →
  mutex r = false ∧ (routes r = None ∨ ∃ m, routes r = Some (snapshot m)).
Proof.
  induction 1 as [|r m kvs r' log _ [IHmu _] Hp Hrun].
  - split; [done|by left].
  - rewrite (Update_ranged_run _ _ IHmu) in Hrun.
    injection Hrun as <- _. split; [done|]. right. exists m. cbn.
    by rewrite (foldl_loop_step_snapshot _ _ Hp).
Qed.

Lemma snapshot_lookup m name :
  snapshot m !! name
  = m !! name ≫= λ host,
      if decide (valid (name, host)) then Some (new_target host) else None.
Proof.
  unfold snapshot. rewrite lookup_fmap, map_lookup_filter.
  destruct (m !! name) as [host|]; cbn; [|done].
  case_decide; cbn.
  - by rewrite option_guard_True.
  - by rewrite option_guard_False.
Qed.

Lemma snapshot_all_invalid (m : gmap string string) :
  (∀ name host, m !! name = Some host → name = "" ∨ host = "") →
  snapshot m = ∅.
Proof.
  intros Hall. apply map_empty. intros name. rewrite snapshot_lookup.
  destruct (m !! name) as [host|] eqn:Hm; cbn; [|done].
  case_decide as Hv; [|done].
  destruct Hv as [Hv1 Hv2]. cbn in *. by destruct (Hall _ _ Hm).
Qed.

Lemma dispatch_run forward r :
  mutex r = false →
  dispatch forward r
  = Done (match routes r with
          | Some t => match t !! default "" forward with
                      | Some p => Served p
                      | None => Forbidden
                      end
          | None => Forbidden
          end) r [EvLock; EvUnlock].
Proof.
  intros Hmu. unfold dispatch, bind. rewrite (GetProxy_run _ _ Hmu).
  destruct (routes r) as [t|]; [|done].
  by destruct (t !! default "" forward).
Qed.

(** C1: after [Update] with a mapping [m], run on any earlier table and in
    any order of the range, the table is exactly the snapshot of [m]: a name
    is bound exactly when [m] binds it and neither is empty, and it is bound
    to the forwarding target for its address (the target's URL has the
    scheme http and the address as host, and the target uses the shared
    transport); nothing of the earlier table is left, and the number of
    entries is the number of valid entries of [m]. *)
Theorem Update_installs_snapshot r m kvs :
  mutex r = false →
  kvs ≡ₚ map_to_list m →
  ∃ log,
    Update_ranged kvs r
    = Done tt {| mutex := false; routes := Some (snapshot m) |} log
    ∧ (∀ name p,
         snapshot m !! name = Some p ↔
         ∃ host, m !! name = Some host ∧ name ≠ "" ∧ host ≠ ""
                 ∧ p = {| target := {| Scheme := "http"; Host := host |};
                          Transport := Some roundTripper |})
    ∧ (∀ name p,
         snapshot m !! name = Some p →
         m !! name = Some (Host (target p))
         ∧ Scheme (target p) = "http"
         ∧ Transport p = Some roundTripper)
    ∧ size (snapshot m) = size (filter valid m).
Proof.
  intros Hmu Hp. eexists. split; [|split; [|split]].
  - rewrite (Update_ranged_run _ _ Hmu).
    by rewrite (foldl_loop_step_snapshot _ _ Hp).
  - intros name p. rewrite snapshot_lookup. split.
    + destruct (m !! name) as [host|]; cbn; [|done].
      case_decide as Hv; [|done]. intros [= <-].
      destruct Hv. by exists host.
    + intros (host & -> & Hn & Hh & ->). cbn.
      by rewrite decide_True.
  - intros name p. rewrite snapshot_lookup.
    destruct (m !! name) as [host|]; cbn; [|done].
    case_decide as Hv; [|done]. by intros [= <-].
  - apply map_size_fmap.
Qed.

(** C2, as amended: [Update] takes the lock first and releases it last; the
    table is reset and every target is stored while the lock is held, so the
    work under the lock is one operation more than the number of valid
    entries, and no table operation runs outside the lock. *)
Theorem Update_builds_under_lock r m kvs :
  mutex r = false →
  kvs ≡ₚ map_to_list m →
  ∃ r' log,
    Update_ranged kvs r = Done tt r' log
    ∧ log = EvLock :: EvMake :: stores kvs ++ [EvUnlock]
    ∧ under_lock false log = EvMake :: stores kvs
    ∧ outside_lock false log = []
    ∧ length (under_lock false log) = 1 + size (filter valid m).
Proof.
  intros Hmu Hp. eexists _, _. split; [apply (Update_ranged_run _ _ Hmu)|].
  split; [done|]. cbn [under_lock outside_lock].
  rewrite under_lock_stores, outside_lock_stores. cbn.
  rewrite app_nil_r, (length_stores _ _ Hp). done.
Qed.

(** C7: [GetProxy] returns, with nil when no map was ever installed or the
    name is not a key of the current one, and with the name's target when it
    is; the table is left as it was. *)
Theorem GetProxy_total r name :
  mutex r = false →
  (routes r = None → GetProxy name r = Done None r [EvLock; EvUnlock])
  ∧ (∀ t, routes r = Some t → t !! name = None →
       GetProxy name r = Done None r [EvLock; EvUnlock])
  ∧ (∀ t p, routes r = Some t → t !! name = Some p →
       GetProxy name r = Done (Some p) r [EvLock; EvUnlock]).
Proof.
  intros Hmu. rewrite (GetProxy_run _ _ Hmu).
  split; [|split].
  - by intros ->.
  - by intros t -> ->.
  - by intros t p -> ->.
Qed.

(** C9: in every reachable state of the table the empty name has no target,
    so a request with an empty or absent [forward] parameter is answered
    with Forbidden. *)
Theorem empty_name_never_routed r :
  reachable r →
  GetProxy "" r = Done None r [EvLock; EvUnlock]
  ∧ dispatch (Some "") r = Done Forbidden r [EvLock; EvUnlock]
  ∧ dispatch None r = Done Forbidden r [EvLock; EvUnlock].
Proof.
  intros [Hmu Hrt]%reachable_inv.
  rewrite (GetProxy_run _ _ Hmu), !(dispatch_run _ _ Hmu). cbn.
  destruct Hrt as [->|[m ->]]; [done|].
  rewrite snapshot_lookup.
  destruct (m !! "") as [host|]; cbn; [|done].
  rewrite decide_False; [done|]. by intros [? _].
Qed.

(** C10: [Update] with a mapping that has no valid entry (the empty mapping
    included) installs the empty map over whatever was there: afterwards
    [GetProxy] returns nil for every name and [Names] returns no name. *)
Theorem Update_without_valid_entries r m kvs :
  mutex r = false →
  kvs ≡ₚ map_to_list m →
  (∀ name host, m !! name = Some host → name = "" ∨ host = "") →
  ∃ r' log,
    Update_ranged kvs r = Done tt r' log
    ∧ routes r' = Some ∅
    ∧ (∀ name, GetProxy name r' = Done None r' [EvLock; EvUnlock])
    ∧ (∀ order, (∀ t, order t ≡ₚ map_to_list t) →
         Names_ranged order r' = Done [] r' [EvLock; EvUnlock])
    ∧ Names r' = Done [] r' [EvLock; EvUnlock].
Proof.
  intros Hmu Hp Hall. eexists _, _.
  split; [apply (Update_ranged_run _ _ Hmu)|].
  rewrite (foldl_loop_step_snapshot _ _ Hp), (snapshot_all_invalid _ Hall).
  split; [done|]. split; [|split].
  - intros name. by rewrite GetProxy_run.
  - intros order Ho. rewrite Names_ranged_run by done. cbn.
    specialize (Ho ∅). rewrite map_to_list_empty in Ho.
    by apply Permutation_nil_r in Ho as ->.
  - unfold Names. rewrite Names_ranged_run by done. cbn.
    by rewrite map_to_list_empty.
Qed.

(** *** The claims at sample inputs *)

Lemma Update_installs_snapshot_witness :
  mutex Samples.one_route = false
  ∧ ∃ log,
      Update Samples.mapping_invalid Samples.one_route
      = Done tt {| mutex := false;
                   routes := Some (snapshot Samples.mapping_invalid) |} log
      ∧ (∀ name p,
           snapshot Samples.mapping_invalid !! name = Some p ↔
           ∃ host, Samples.mapping_invalid !! name = Some host
                   ∧ name ≠ "" ∧ host ≠ ""
                   ∧ p = {| target := {| Scheme := "http"; Host := host |};
                            Transport := Some roundTripper |})
      ∧ (∀ name p,
           snapshot Samples.mapping_invalid !! name = Some p →
           Samples.mapping_invalid !! name = Some (Host (target p))
           ∧ Scheme (target p) = "http"
           ∧ Transport p = Some roundTripper)
      ∧ size (snapshot Samples.mapping_invalid)
        = size (filter valid Samples.mapping_invalid).
Proof.
  split; [reflexivity|].
  apply (Update_installs_snapshot Samples.one_route Samples.mapping_invalid
           (map_to_list Samples.mapping_invalid)); reflexivity.
Defined.

Example Update_filtering_example :
  Update Samples.mapping_invalid Samples.one_route
  = Done tt Samples.route_b
      [EvLock; EvMake; EvStore "b" (new_target "h2:2"); EvUnlock].
Proof. vm_compute. reflexivity. Qed.

(** The table of the spec's filtering example, written out: the one target
    is for the address of ["b"]. *)
Example Update_filtering_targets :
  Update Samples.mapping_invalid Samples.one_route
  = Done tt
      {| mutex := false;
         routes :=
           Some {[ "b" := {| target := {| Scheme := "http"; Host := "h2:2" |};
                             Transport := Some (DialTimeout 10) |} ]} |}
      [EvLock; EvMake;
       EvStore "b" {| target := {| Scheme := "http"; Host := "h2:2" |};
                      Transport := Some (DialTimeout 10) |};
       EvUnlock].
Proof. vm_compute. reflexivity. Qed.

(** C2 fails as stated: with two valid entries [Update] does three table
    operations, all of them between [Lock] and [Unlock], and none before
    the lock is taken. *)
Lemma Update_stores_under_lock_example :
  Update Samples.mapping_two fresh
  = Done tt {| mutex := false; routes := Some (snapshot Samples.mapping_two) |}
      Samples.log_two
  ∧ under_lock false Samples.log_two
    = [EvMake; EvStore "a" (new_target "h1:1");
       EvStore "b" (new_target "h2:2")]
  ∧ outside_lock false Samples.log_two = [].
Proof. vm_compute. repeat split. Qed.

Lemma Update_builds_under_lock_witness :
  mutex Samples.one_route = false
  ∧ ∃ r' log,
      Update Samples.mapping_two Samples.one_route = Done tt r' log
      ∧ log = EvLock :: EvMake
              :: stores (map_to_list Samples.mapping_two) ++ [EvUnlock]
      ∧ under_lock false log
        = EvMake :: stores (map_to_list Samples.mapping_two)
      ∧ outside_lock false log = []
      ∧ length (under_lock false log)
        = 1 + size (filter valid Samples.mapping_two).
Proof.
  split; [reflexivity|].
  apply (Update_builds_under_lock Samples.one_route Samples.mapping_two
           (map_to_list Samples.mapping_two)); reflexivity.
Defined.

Lemma GetProxy_total_witness :
  mutex Samples.one_route = false
  ∧ GetProxy "missing" Samples.one_route
    = Done None Samples.one_route [EvLock; EvUnlock]
  ∧ GetProxy "old" Samples.one_route
    = Done (Some (new_target "h0:0")) Samples.one_route [EvLock; EvUnlock]
  ∧ GetProxy "old" fresh = Done None fresh [EvLock; EvUnlock].
Proof.
  split; [reflexivity|]. split; [|split].
  - apply (proj1 (proj2 (GetProxy_total Samples.one_route "missing" eq_refl))
             {[ "old" := new_target "h0:0" ]}); reflexivity.
  - apply (proj2 (proj2 (GetProxy_total Samples.one_route "old" eq_refl))
             {[ "old" := new_target "h0:0" ]}); reflexivity.
  - apply (proj1 (GetProxy_total fresh "old" eq_refl)); reflexivity.
Defined.

Lemma empty_name_never_routed_witness :
  reachable Samples.route_b
  ∧ GetProxy "" Samples.route_b = Done None Samples.route_b [EvLock; EvUnlock]
  ∧ dispatch (Some "") Samples.route_b
    = Done Forbidden Samples.route_b [EvLock; EvUnlock]
  ∧ dispatch None Samples.route_b
    = Done Forbidden Samples.route_b [EvLock; EvUnlock].
Proof.
  assert (H : reachable Samples.route_b).
  { apply (reach_Update fresh Samples.mapping_invalid
             (map_to_list Samples.mapping_invalid) Samples.route_b
             [EvLock; EvMake; EvStore "b" (new_target "h2:2"); EvUnlock]).
    - apply reach_fresh.
    - reflexivity.
    - vm_compute. reflexivity. }
  split; [exact H|]. apply (empty_name_never_routed Samples.route_b H).
Defined.

Lemma Update_without_valid_entries_witness :
  mutex Samples.one_route = false
  ∧ (∀ name host, Samples.mapping_no_valid !! name = Some host →
       name = "" ∨ host = "")
  ∧ ∃ r' log,
      Update Samples.mapping_no_valid Samples.one_route = Done tt r' log
      ∧ routes r' = Some ∅
      ∧ (∀ name, GetProxy name r' = Done None r' [EvLock; EvUnlock])
      ∧ (∀ order, (∀ t, order t ≡ₚ map_to_list t) →
           Names_ranged order r' = Done [] r' [EvLock; EvUnlock])
      ∧ Names r' = Done [] r' [EvLock; EvUnlock].
Proof.
  assert (H : ∀ name host, Samples.mapping_no_valid !! name = Some host →
                name = "" ∨ host = "").
  { intros name host. unfold Samples.mapping_no_valid.
    rewrite lookup_insert_Some, lookup_singleton_Some.
    intros [[<- _]|[_ [_ <-]]]; [by left|by right]. }
  split; [reflexivity|]. split; [exact H|].
  apply (Update_without_valid_entries Samples.one_route
           Samples.mapping_no_valid (map_to_list Samples.mapping_no_valid));
    [reflexivity|reflexivity|exact H].
Defined.

Example Update_erases_example :
  Update Samples.mapping_no_valid Samples.one_route
  = Done tt Samples.no_route [EvLock; EvMake; EvUnlock]
  ∧ GetProxy "old" Samples.no_route
    = Done None Samples.no_route [EvLock; EvUnlock]
  ∧ Names Samples.no_route = Done [] Samples.no_route [EvLock; EvUnlock].
Proof. vm_compute. repeat split. Qed.

End RouteTableFacts.

(** ** Facts about the loader *)

Module LoaderFacts.
Import Loader.

Lemma Equal_refl t : Equal t t = true.
Proof. unfold Equal. by rewrite !Z.eqb_refl. Qed.

Lemma Load_range_records es m l :
  Load_range (Some <$> es) m l
  = Done (foldl (λ m e, <[Name e := Dashboard e]> m) m es) l [].
Proof. revert m. induction es as [|e es IH]; intros m; cbn; [done|apply IH]. Qed.

Lemma Load_range_nil list m l :
  None ∈ list → Load_range list m l = Fault NilDereference.
Proof.
  revert m. induction list as [|[e|] list IH]; intros m Hin; cbn.
  - by apply elem_of_nil in Hin.
  - apply IH. by apply elem_of_cons in Hin as [|].
  - done.
Qed.

Lemma Load_range_Done list m l m' l' log :
  Load_range list m l = Done m' l' log →
  ∃ es, list = Some <$> es
        ∧ m' = foldl (λ m e, <[Name e := Dashboard e]> m) m es
        ∧ l' = l ∧ log = [].
Proof.
  revert m. induction list as [|[e|] list IH]; intros m; cbn.
  - intros [= <- <- <-]. by exists [].
  - intros (es & -> & -> & -> & ->)%IH. by exists (e :: es).
  - done.
Qed.

Lemma foldl_insert_lookup es (m : gmap string string) name :
  foldl (λ m e, <[Name e := Dashboard e]> m) m es !! name
  = match list.last (filter (λ e, Name e = name) es) with
    | Some e => Some (Dashboard e)
    | None => m !! name
    end.
Proof.
  induction es as [|e es IH] using rev_ind; [done|].
  rewrite foldl_snoc, filter_app.
  destruct (decide (Name e = name)) as [<-|Hne].
  - rewrite filter_cons_True, filter_nil, last_snoc by done.
    by rewrite lookup_insert_eq.
  - rewrite filter_cons_False, filter_nil, app_nil_r by done.
    by rewrite lookup_insert_ne.
Qed.

Lemma built_lookup es name :
  built es !! name = Dashboard <$> list.last (filter (λ e, Name e = name) es).
Proof.
  unfold built. rewrite foldl_insert_lookup.
  by destruct (list.last _).
Qed.

Lemma built_key es e : e ∈ es → is_Some (built es !! Name e).
Proof.
  intros Hin. rewrite built_lookup.
  destruct (list.last (filter (λ e', Name e' = Name e) es)) as [e'|] eqn:Hl;
    [by eexists|].
  apply last_None in Hl.
  assert (e ∈ filter (λ e', Name e' = Name e) es)
    by by apply list_elem_of_filter.
  rewrite Hl in *. by apply elem_of_nil in H.
Qed.

Section Runs.

Context {Err : Type}.
Variable Trace : option Err → option Err.
Variable Unmarshal : list Byte.byte → Err + list (option Entry).
Variable fs : FileSystem Err.
Variable path : string.

Lemma Load_read_error l err :
  ReadFile fs path = inl err →
  Load Trace Unmarshal fs path l
  = Done (None, Trace (Some err)) l [EvReadFile path].
Proof. intros H. unfold Load, bind, tell. by rewrite H. Qed.

Lemma Load_parse_error l b err :
  ReadFile fs path = inr b → Unmarshal b = inl err →
  Load Trace Unmarshal fs path l
  = Done (None, Trace (Some err)) l [EvReadFile path; EvUnmarshal b].
Proof. intros H1 H2. unfold Load, bind, tell. rewrite H1. by rewrite H2. Qed.

Lemma Load_records l b es :
  ReadFile fs path = inr b → Unmarshal b = inr (Some <$> es) →
  Load Trace Unmarshal fs path l
  = Done (Some (built es), None) l [EvReadFile path; EvUnmarshal b].
Proof.
  intros H1 H2. unfold Load, bind, tell. rewrite H1. rewrite H2.
  by rewrite Load_range_records.
Qed.

Lemma Load_nil_pointer l b list :
  ReadFile fs path = inr b → Unmarshal b = inr list → None ∈ list →
  Load Trace Unmarshal fs path l = Fault NilDereference.
Proof.
  intros H1 H2 Hin. unfold Load, bind, tell. rewrite H1. rewrite H2.
  by rewrite Load_range_nil.
Qed.

(** [Load] leaves the loader alone and reports a mapping exactly with the
    nil error. *)
Lemma Load_Done l m err l' log :
  Load Trace Unmarshal fs path l = Done (m, err) l' log →
  l' = l ∧
  ((m = None ∧ ∃ e, err = Trace (Some e)) ∨
   (err = None ∧ ∃ b es, ReadFile fs path = inr b
      ∧ Unmarshal b = inr (Some <$> es) ∧ m = Some (built es)
      ∧ log = [EvReadFile path; EvUnmarshal b])).
Proof.
  unfold Load, bind, tell.
  destruct (ReadFile fs path) as [e|b] eqn:H1.
  { intros [= <- <- <- <-]. split; [done|]. left. eauto. }
  destruct (Unmarshal b) as [e|list] eqn:H2.
  { intros [= <- <- <- <-]. split; [done|]. left. eauto. }
  destruct (Load_range list ∅ l) as [m0 l0 log0|f] eqn:H3; [|done].
  apply Load_range_Done in H3 as (es & -> & -> & -> & ->).
  intros [= <- <- <- <-]. split; [done|]. right.
  split; [done|]. by exists b, es.
Qed.

Lemma Reload_stat_error l err :
  Stat fs path = inl err →
  Reload Trace Unmarshal fs path l
  = Done (None, Trace (Some err)) l [EvStat path].
Proof. intros H. unfold Reload, bind, get, tell. by rewrite H. Qed.

Lemma Reload_unchanged l fi :
  Stat fs path = inr fi → Equal (ModTime fi) (last l) = true →
  Reload Trace Unmarshal fs path l = Done (None, Trace None) l [EvStat path].
Proof.
  intros H1 H2. unfold Reload, bind, get, tell. rewrite H1. by rewrite H2.
Qed.

(** With a new modification time, [Reload] is [Load] followed by the
    test of its error. *)
Lemma Reload_changed l fi :
  Stat fs path = inr fi → Equal (ModTime fi) (last l) = false →
  Reload Trace Unmarshal fs path l
  = match Load Trace Unmarshal fs path l with
    | Fault f => Fault f
    | Done (m, Some e) l1 log => Done (None, Some e) l1 (EvStat path :: log)
    | Done (m, None) _ log =>
        Done (m, None) {| last := ModTime fi |} (EvStat path :: log)
    end.
Proof.
  intros H1 H2. unfold Reload, bind at 1 2, get, tell. rewrite H1.
  cbn [app]. rewrite H2. unfold bind.
  destruct (Load Trace Unmarshal fs path l) as [[m [e|]] l1 log|f]; cbn;
    by rewrite ?app_nil_r.
Qed.

End Runs.

Section Timestamp.

Context {Err : Type}.
Variable Trace : option Err → option Err.
Variable Unmarshal : list Byte.byte → Err + list (option Entry).
Variable fs : FileSystem Err.
Variable path : string.

(** When [Reload] returns a mapping, the file was inspected, read and
    decoded, and the timestamp is the one observed. *)
Lemma Reload_Done_mapping l m err l' log :
  Reload Trace Unmarshal fs path l = Done (Some m, err) l' log →
  ∃ fi b es,
    Stat fs path = inr fi ∧ Equal (ModTime fi) (last l) = false
    ∧ ReadFile fs path = inr b ∧ Unmarshal b = inr (Some <$> es)
    ∧ m = built es ∧ err = None ∧ l' = {| last := ModTime fi |}
    ∧ log = [EvStat path; EvReadFile path; EvUnmarshal b].
Proof.
  destruct (Stat fs path) as [e|fi] eqn:Hst.
  { by rewrite (Reload_stat_error _ _ _ _ _ _ Hst). }
  destruct (Equal (ModTime fi) (last l)) eqn:Heq.
  { by rewrite (Reload_unchanged _ _ _ _ _ _ Hst Heq). }
  rewrite (Reload_changed _ _ _ _ _ _ Hst Heq).
  destruct (Load Trace Unmarshal fs path l) as [[m0 err0] l0 log0|f] eqn:HL;
    [|done].
  apply Load_Done in HL as [-> [[-> [e ->]]|[-> (b & es & ? & ? & -> & ->)]]].
  - by destruct (Trace (Some e)).
  - intros [= <- <- <- <-]. by exists fi, b, es.
Qed.

(** When [Reload] returns and the loader has changed, a mapping came back
    with the nil error. *)
Lemma Reload_Done_changed l res l' log :
  (∀ e, is_Some (Trace (Some e))) →
  Reload Trace Unmarshal fs path l = Done res l' log →
  l' = l ∨ ∃ fi m, Stat fs path = inr fi ∧ res = (Some m, None)
                   ∧ l' = {| last := ModTime fi |}.
Proof.
  intros HT.
  destruct (Stat fs path) as [e|fi] eqn:Hst.
  { rewrite (Reload_stat_error _ _ _ _ _ _ Hst). intros [= <- <- <-]. by left. }
  destruct (Equal (ModTime fi) (last l)) eqn:Heq.
  { rewrite (Reload_unchanged _ _ _ _ _ _ Hst Heq).
    intros [= <- <- <-]. by left. }
  rewrite (Reload_changed _ _ _ _ _ _ Hst Heq).
  destruct (Load Trace Unmarshal fs path l) as [[m0 err0] l0 log0|f] eqn:HL;
    [|done].
  apply Load_Done in HL as [-> [[-> [e ->]]|[-> (b & es & ? & ? & -> & ->)]]].
  - destruct (HT e) as [e' ->]. intros [= <- <- <-]. by left.
  - intros [= <- <- <-]. right. by exists fi, (built es).
Qed.

(** C3: [Reload] leaves the remembered timestamp as it was when the file
    cannot be inspected, cannot be read or does not parse; whenever it
    returns with another timestamp, it returns a mapping and the nil
    error, and the timestamp is the modification time just observed;
    and whenever it returns a mapping the timestamp is that time. *)
Theorem Reload_timestamp l :
  (∀ e, is_Some (Trace (Some e))) →
  (∀ e, Stat fs path = inl e →
     Reload Trace Unmarshal fs path l
     = Done (None, Trace (Some e)) l [EvStat path])
  ∧ (∀ fi e,
       Stat fs path = inr fi → Equal (ModTime fi) (last l) = false →
       ReadFile fs path = inl e →
       Reload Trace Unmarshal fs path l
       = Done (None, Trace (Some e)) l [EvStat path; EvReadFile path])
  ∧ (∀ fi b e,
       Stat fs path = inr fi → Equal (ModTime fi) (last l) = false →
       ReadFile fs path = inr b → Unmarshal b = inl e →
       Reload Trace Unmarshal fs path l
       = Done (None, Trace (Some e)) l
           [EvStat path; EvReadFile path; EvUnmarshal b])
  ∧ (∀ res l' log,
       Reload Trace Unmarshal fs path l = Done res l' log →
       l' = l ∨ ∃ fi m, Stat fs path = inr fi ∧ res = (Some m, None)
                        ∧ l' = {| last := ModTime fi |})
  ∧ (∀ m err l' log,
       Reload Trace Unmarshal fs path l = Done (Some m, err) l' log →
       ∃ fi, Stat fs path = inr fi ∧ err = None
             ∧ l' = {| last := ModTime fi |}).
Proof.
  intros HT. repeat split.
  - apply Reload_stat_error.
  - intros fi e Hst Heq Hrd. rewrite (Reload_changed _ _ _ _ _ _ Hst Heq).
    rewrite (Load_read_error _ _ _ _ _ _ Hrd).
    by destruct (HT e) as [e' ->].
  - intros fi b e Hst Heq Hrd Hun.
    rewrite (Reload_changed _ _ _ _ _ _ Hst Heq).
    rewrite (Load_parse_error _ _ _ _ _ _ _ Hrd Hun).
    by destruct (HT e) as [e' ->].
  - intros res l' log. by apply Reload_Done_changed.
  - intros m err l' log
      (fi & b & es & ? & _ & _ & _ & _ & ? & ? & _)%Reload_Done_mapping.
    by exists fi.
Qed.

(** C4: with a modification time equal to the remembered one, [Reload]
    returns the nil mapping and the nil error after the one [Stat]; so a
    second [Reload] of the same file system, after one that returned a
    mapping, returns nil and nil and neither reads nor decodes the file. *)
Theorem Reload_unchanged_returns_nil l :
  Trace None = None →
  (∀ fi, Stat fs path = inr fi → Equal (ModTime fi) (last l) = true →
     Reload Trace Unmarshal fs path l = Done (None, None) l [EvStat path])
  ∧ (∀ m l' log,
       Reload Trace Unmarshal fs path l = Done (Some m, None) l' log →
       Reload Trace Unmarshal fs path l'
       = Done (None, None) l' [EvStat path]).
Proof.
  intros HT. split.
  - intros fi Hst Heq. rewrite (Reload_unchanged _ _ _ _ _ _ Hst Heq).
    by rewrite HT.
  - intros m l' log
      (fi & b & es & Hst & _ & _ & _ & _ & _ & -> & _)%Reload_Done_mapping.
    rewrite (Reload_unchanged _ _ _ _ _ fi Hst); [by rewrite HT|].
    apply Equal_refl.
Qed.

(** C8, as amended: a [Reload] that fails on malformed content leaves the
    timestamp as it was, so the next [Reload] of the same file system
    inspects, reads and decodes the same content again and fails in the
    same way; a file whose modification time differs from the remembered
    one (whatever the time of the malformed content was) and whose content
    decodes to a list of records is loaded. *)
Theorem malformed_source_is_retried l fi b e :
  (∀ e, is_Some (Trace (Some e))) →
  Stat fs path = inr fi → Equal (ModTime fi) (last l) = false →
  ReadFile fs path = inr b → Unmarshal b = inl e →
  Reload Trace Unmarshal fs path l
  = Done (None, Trace (Some e)) l
      [EvStat path; EvReadFile path; EvUnmarshal b]
  ∧ (∀ l', state_of (Reload Trace Unmarshal fs path l) = Some l' →
       Reload Trace Unmarshal fs path l'
       = Done (None, Trace (Some e)) l'
           [EvStat path; EvReadFile path; EvUnmarshal b])
  ∧ (∀ fs' fi' b' es,
       Stat fs' path = inr fi' → Equal (ModTime fi') (last l) = false →
       ReadFile fs' path = inr b' → Unmarshal b' = inr (Some <$> es) →
       Reload Trace Unmarshal fs' path l
       = Done (Some (built es), None) {| last := ModTime fi' |}
           [EvStat path; EvReadFile path; EvUnmarshal b']).
Proof.
  intros HT Hst Heq Hrd Hun.
  assert (Hrun : Reload Trace Unmarshal fs path l
    = Done (None, Trace (Some e)) l
        [EvStat path; EvReadFile path; EvUnmarshal b]).
  { rewrite (Reload_changed _ _ _ _ _ _ Hst Heq).
    rewrite (Load_parse_error _ _ _ _ _ _ _ Hrd Hun).
    by destruct (HT e) as [e' ->]. }
  split; [done|]. split.
  - rewrite Hrun. by intros l' [= <-].
  - intros fs' fi' b' es Hst' Heq' Hrd' Hun'.
    rewrite (Reload_changed _ _ _ _ _ _ Hst' Heq').
    by rewrite (Load_records _ _ _ _ _ _ _ Hrd' Hun').
Qed.

End Timestamp.

(** *** The claims at sample inputs *)

Lemma Trace_sample_nonnil (e : string) : is_Some (Samples.Trace (Some e)).
Proof. eexists. reflexivity. Defined.

Example Unmarshal_sample_duplicate :
  Samples.Unmarshal (Samples.text Samples.list_duplicate)
  = inr Samples.list_duplicate.
Proof. vm_compute. reflexivity. Qed.

Example Unmarshal_sample_null :
  Samples.Unmarshal (String.list_byte_of_string "[null]") = inr [None].
Proof. vm_compute. reflexivity. Qed.

Example Unmarshal_sample_empty :
  Samples.Unmarshal (String.list_byte_of_string "[]") = inr [].
Proof. vm_compute. reflexivity. Qed.

Example Unmarshal_sample_malformed :
  Samples.Unmarshal Samples.malformed = inl "unexpected end of JSON input".
Proof. vm_compute. reflexivity. Qed.

(** A list with a null element makes the loop of [Load] dereference nil. *)
Example Load_sample_null :
  Load Samples.Trace Samples.Unmarshal
    (Samples.file_system Samples.noon (Samples.text Samples.list_null))
    Samples.config fresh
  = Fault NilDereference.
Proof. vm_compute. reflexivity. Qed.

Lemma Reload_timestamp_witness :
  (∀ e, is_Some (Samples.Trace (Some e)))
  ∧ Reload Samples.Trace Samples.Unmarshal Samples.missing Samples.config fresh
    = Done (None, Some "[stack] stat: no such file or directory") fresh
        [EvStat Samples.config]
  ∧ Reload Samples.Trace Samples.Unmarshal (Samples.unreadable Samples.noon)
      Samples.config fresh
    = Done (None, Some "[stack] open: permission denied") fresh
        [EvStat Samples.config; EvReadFile Samples.config]
  ∧ Reload Samples.Trace Samples.Unmarshal
      (Samples.file_system Samples.noon Samples.malformed) Samples.config fresh
    = Done (None, Some "[stack] unexpected end of JSON input") fresh
        (Samples.log_load Samples.malformed)
  ∧ ∃ fi, Stat (Samples.file_system Samples.noon
                  (Samples.text Samples.list_duplicate)) Samples.config
          = inr fi
          ∧ @None string = None
          ∧ {| last := Samples.noon |} = {| last := ModTime fi |}.
Proof.
  split; [exact Trace_sample_nonnil|]. split; [|split; [|split]].
  - apply (proj1 (Reload_timestamp Samples.Trace Samples.Unmarshal
                    Samples.missing Samples.config fresh Trace_sample_nonnil)).
    reflexivity.
  - apply (proj1 (proj2 (Reload_timestamp Samples.Trace Samples.Unmarshal
                    (Samples.unreadable Samples.noon) Samples.config fresh
                    Trace_sample_nonnil)) {| ModTime := Samples.noon |});
      reflexivity.
  - apply (proj1 (proj2 (proj2 (Reload_timestamp Samples.Trace
                    Samples.Unmarshal
                    (Samples.file_system Samples.noon Samples.malformed)
                    Samples.config fresh Trace_sample_nonnil)))
             {| ModTime := Samples.noon |} Samples.malformed); reflexivity.
  - apply (proj2 (proj2 (proj2 (proj2 (Reload_timestamp Samples.Trace
                    Samples.Unmarshal
                    (Samples.file_system Samples.noon
                       (Samples.text Samples.list_duplicate))
                    Samples.config fresh Trace_sample_nonnil))))
             Samples.mapping_duplicate None {| last := Samples.noon |}
             (Samples.log_load (Samples.text Samples.list_duplicate))).
    vm_compute. reflexivity.
Defined.

Lemma Reload_unchanged_returns_nil_witness :
  Samples.Trace None = None
  ∧ Reload Samples.Trace Samples.Unmarshal
      (Samples.file_system Samples.noon (Samples.text Samples.list_duplicate))
      Samples.config fresh
    = Done (Some Samples.mapping_duplicate, None) {| last := Samples.noon |}
        (Samples.log_load (Samples.text Samples.list_duplicate))
  ∧ Reload Samples.Trace Samples.Unmarshal
      (Samples.file_system Samples.noon (Samples.text Samples.list_duplicate))
      Samples.config {| last := Samples.noon |}
    = Done (None, None) {| last := Samples.noon |} [EvStat Samples.config].
Proof.
  assert (H : Reload Samples.Trace Samples.Unmarshal
      (Samples.file_system Samples.noon (Samples.text Samples.list_duplicate))
      Samples.config fresh
    = Done (Some Samples.mapping_duplicate, None) {| last := Samples.noon |}
        (Samples.log_load (Samples.text Samples.list_duplicate))).
  { vm_compute. reflexivity. }
  split; [reflexivity|]. split; [exact H|].
  apply (proj2 (Reload_unchanged_returns_nil Samples.Trace Samples.Unmarshal
                  (Samples.file_system Samples.noon
                     (Samples.text Samples.list_duplicate))
                  Samples.config fresh eq_refl) _ _ _ H).
Defined.

(** C8 fails as stated: two [Reload]s in a row of the same malformed file
    each read and decode it; the second is not answered from the
    timestamp. *)
Lemma malformed_source_is_reparsed :
  (Reload Samples.Trace Samples.Unmarshal
     (Samples.file_system Samples.noon Samples.malformed) Samples.config ;;
   Reload Samples.Trace Samples.Unmarshal
     (Samples.file_system Samples.noon Samples.malformed) Samples.config) fresh
  = Done (None, Some "[stack] unexpected end of JSON input") fresh
      (Samples.log_load Samples.malformed
       ++ Samples.log_load Samples.malformed).
Proof. vm_compute. reflexivity. Qed.

Lemma malformed_source_is_retried_witness :
  (∀ e, is_Some (Samples.Trace (Some e)))
  ∧ Equal Samples.noon (last fresh) = false
  ∧ Samples.Unmarshal Samples.malformed = inl "unexpected end of JSON input"
  ∧ Reload Samples.Trace Samples.Unmarshal
      (Samples.file_system Samples.noon Samples.malformed) Samples.config fresh
    = Done (None, Some "[stack] unexpected end of JSON input") fresh
        (Samples.log_load Samples.malformed)
  ∧ Reload Samples.Trace Samples.Unmarshal
      (Samples.file_system Samples.later
         (Samples.text Samples.list_duplicate)) Samples.config fresh
    = Done (Some Samples.mapping_duplicate, None) {| last := Samples.later |}
        (Samples.log_load (Samples.text Samples.list_duplicate)).
Proof.
  pose proof (malformed_source_is_retried Samples.Trace Samples.Unmarshal
                (Samples.file_system Samples.noon Samples.malformed)
                Samples.config fresh {| ModTime := Samples.noon |}
                Samples.malformed "unexpected end of JSON input"
                Trace_sample_nonnil eq_refl eq_refl eq_refl eq_refl)
    as (H1 & _ & H3).
  split; [exact Trace_sample_nonnil|]. split; [reflexivity|].
  split; [reflexivity|]. split; [exact H1|].
  apply (H3 (Samples.file_system Samples.later
               (Samples.text Samples.list_duplicate))
            {| ModTime := Samples.later |}
            (Samples.text Samples.list_duplicate)
            [{| Name := "a"; Dashboard := "h1:1" |};
             {| Name := "a"; Dashboard := "h2:2" |}]); reflexivity.
Defined.

End LoaderFacts.

(** ** From the file to the table *)

Module PipelineClaims.
Import RouteTable RouteTableFacts.
Import Loader LoaderFacts.

Section Pipeline.

Context {Err : Type}.
Variable Trace : option Err → option Err.
Variable Unmarshal : list Byte.byte → Err + list (option Entry).
Variable fs : FileSystem Err.
Variable path : string.

(** What [GetProxy] finds after [Update] installed a mapping. *)
Lemma GetProxy_after_Update r m kvs name :
  mutex r = false → kvs ≡ₚ map_to_list m →
  ∃ r' log,
    Update_ranged kvs r = Done tt r' log
    ∧ GetProxy name r'
      = Done (m !! name ≫= λ host,
                if decide (valid (name, host)) then Some (new_target host)
                else None) r' [EvLock; EvUnlock].
Proof.
  intros Hmu Hp. eexists _, _.
  split; [apply (Update_ranged_run _ _ Hmu)|].
  rewrite GetProxy_run by done. cbn.
  by rewrite (foldl_loop_step_snapshot _ _ Hp), snapshot_lookup.
Qed.

(** C5, as amended: a mapping returned by [Reload] binds the name of every
    record of the decoded list, records with an empty name or an empty
    address included, each name to the address of its last record; such
    entries are left out only when [Update] installs the mapping: a target
    found in the installed table belongs to a non-empty name with a
    non-empty address. *)
Theorem Reload_keeps_every_record l m err l' log :
  Reload Trace Unmarshal fs path l = Done (Some m, err) l' log →
  ∃ b es,
    ReadFile fs path = inr b ∧ Unmarshal b = inr (Some <$> es)
    ∧ (∀ e, e ∈ es → is_Some (m !! Name e))
    ∧ (∀ name,
         m !! name
         = Dashboard <$> list.last (filter (λ e, Name e = name) es))
    ∧ (∀ r kvs, mutex r = false → kvs ≡ₚ map_to_list m →
         ∃ r' log',
           Update_ranged kvs r = Done tt r' log'
           ∧ ∀ name p,
               GetProxy name r' = Done (Some p) r' [EvLock; EvUnlock] →
               name ≠ "" ∧ ∃ host, m !! name = Some host ∧ host ≠ ""
                                   ∧ p = new_target host).
Proof.
  intros (fi & b & es & _ & _ & Hrd & Hun & -> & _)%Reload_Done_mapping.
  exists b, es. split; [done|]. split; [done|].
  split; [apply built_key|]. split; [apply built_lookup|].
  intros r kvs Hmu Hp.
  destruct (GetProxy_after_Update r (built es) kvs "" Hmu Hp)
    as (r' & log' & Hrun & _).
  exists r', log'. split; [done|]. intros name p.
  destruct (GetProxy_after_Update r (built es) kvs name Hmu Hp)
    as (r'' & log'' & Hrun' & Hget).
  rewrite Hrun in Hrun'. injection Hrun' as <- <-. rewrite Hget.
  destruct (built es !! name) as [host|]; cbn; [|done].
  case_decide as Hv; [|done]. intros [= <-].
  destruct Hv. split; [done|]. by exists host.
Qed.

(** C6, as amended: when records of the list share a non-empty name, the
    mapping built by [Load] binds the name to the address of the last of
    them; the table installed from it binds the name to the target for that
    address (URL scheme http, host the address, the shared transport) when
    the address is not empty, and does not bind the name when it is. *)
Theorem duplicate_name_last_wins l b es name e_last r kvs :
  ReadFile fs path = inr b → Unmarshal b = inr (Some <$> es) →
  name ≠ "" →
  list.last (filter (λ e, Name e = name) es) = Some e_last →
  mutex r = false → kvs ≡ₚ map_to_list (built es) →
  Load Trace Unmarshal fs path l
  = Done (Some (built es), None) l [EvReadFile path; EvUnmarshal b]
  ∧ built es !! name = Some (Dashboard e_last)
  ∧ ∃ r' log,
      Update_ranged kvs r = Done tt r' log
      ∧ GetProxy name r'
        = Done (if decide (Dashboard e_last = "") then None
                else Some {| target := {| Scheme := "http";
                                          Host := Dashboard e_last |};
                             Transport := Some roundTripper |})
            r' [EvLock; EvUnlock].
Proof.
  intros Hrd Hun Hname Hlast Hmu Hp.
  split; [by apply Load_records|].
  assert (Hb : built es !! name = Some (Dashboard e_last))
    by by rewrite built_lookup, Hlast.
  split; [done|].
  destruct (GetProxy_after_Update r (built es) kvs name Hmu Hp)
    as (r' & log & Hrun & Hget).
  exists r', log. split; [done|]. rewrite Hget, Hb. cbn.
  destruct (decide (Dashboard e_last = "")) as [He|He].
  - rewrite decide_False; [done|]. by intros [_ ?].
  - by rewrite decide_True.
Qed.

End Pipeline.

(** *** The claims at sample inputs *)

(** C5 fails as stated: from the list of the spec's filtering example
    [Reload] returns a mapping that has the empty name as a key and binds
    ["a"] to the empty address. *)
Lemma Reload_returns_invalid_records :
  Reload Samples.Trace Samples.Unmarshal
    (Samples.file_system Samples.noon (Samples.text Samples.list_invalid))
    Samples.config Loader.fresh
  = Done (Some Samples.mapping_invalid, None) {| last := Samples.noon |}
      (Samples.log_load (Samples.text Samples.list_invalid))
  ∧ Samples.mapping_invalid !! "" = Some "h1:1"
  ∧ Samples.mapping_invalid !! "a" = Some "".
Proof. vm_compute. repeat split. Qed.

Lemma Reload_keeps_every_record_witness :
  Reload Samples.Trace Samples.Unmarshal
    (Samples.file_system Samples.noon (Samples.text Samples.list_invalid))
    Samples.config Loader.fresh
  = Done (Some Samples.mapping_invalid, None) {| last := Samples.noon |}
      (Samples.log_load (Samples.text Samples.list_invalid))
  ∧ ∃ b es,
      ReadFile (Samples.file_system Samples.noon
                  (Samples.text Samples.list_invalid)) Samples.config = inr b
      ∧ Samples.Unmarshal b = inr (Some <$> es)
      ∧ (∀ e, e ∈ es → is_Some (Samples.mapping_invalid !! Name e))
      ∧ (∀ name,
           Samples.mapping_invalid !! name
           = Dashboard <$> list.last (filter (λ e, Name e = name) es))
      ∧ (∀ r kvs, mutex r = false →
           kvs ≡ₚ map_to_list Samples.mapping_invalid →
           ∃ r' log',
             Update_ranged kvs r = Done tt r' log'
             ∧ ∀ name p,
                 GetProxy name r' = Done (Some p) r' [EvLock; EvUnlock] →
                 name ≠ "" ∧ ∃ host,
                   Samples.mapping_invalid !! name = Some host ∧ host ≠ ""
                   ∧ p = new_target host).
Proof.
  assert (H : Reload Samples.Trace Samples.Unmarshal
    (Samples.file_system Samples.noon (Samples.text Samples.list_invalid))
    Samples.config Loader.fresh
  = Done (Some Samples.mapping_invalid, None) {| last := Samples.noon |}
      (Samples.log_load (Samples.text Samples.list_invalid))).
  { vm_compute. reflexivity. }
  split; [exact H|].
  apply (Reload_keeps_every_record Samples.Trace Samples.Unmarshal _ _ _ _ _ _ _ H).
Defined.

(** C6 fails as stated for the installed table: when the last record of a
    name has an empty address, the mapping binds the name to the empty
    address and the table installed from it has no entry for the name. *)
Lemma later_empty_address_unbinds_name :
  Load Samples.Trace Samples.Unmarshal
    (Samples.file_system Samples.noon (Samples.text Samples.list_shadowed))
    Samples.config Loader.fresh
  = Done (Some Samples.mapping_shadowed, None) Loader.fresh
      [EvReadFile Samples.config;
       EvUnmarshal (Samples.text Samples.list_shadowed)]
  ∧ Samples.mapping_shadowed !! "a" = Some ""
  ∧ Update Samples.mapping_shadowed RouteTable.fresh
    = Done tt Samples.no_route [EvLock; EvMake; EvUnlock]
  ∧ GetProxy "a" Samples.no_route
    = Done None Samples.no_route [EvLock; EvUnlock].
Proof. vm_compute. repeat split. Qed.

(** The spec's example of a name given twice. *)
Lemma duplicate_name_last_wins_witness :
  Load Samples.Trace Samples.Unmarshal
    (Samples.file_system Samples.noon (Samples.text Samples.list_duplicate))
    Samples.config Loader.fresh
  = Done (Some Samples.mapping_duplicate, None) Loader.fresh
      [EvReadFile Samples.config;
       EvUnmarshal (Samples.text Samples.list_duplicate)]
  ∧ Samples.mapping_duplicate !! "a" = Some "h2:2"
  ∧ ∃ r' log,
      Update Samples.mapping_duplicate Samples.one_route = Done tt r' log
      ∧ GetProxy "a" r'
        = Done (Some {| target := {| Scheme := "http"; Host := "h2:2" |};
                        Transport := Some roundTripper |})
            r' [EvLock; EvUnlock].
Proof.
  apply (duplicate_name_last_wins Samples.Trace Samples.Unmarshal
           (Samples.file_system Samples.noon
              (Samples.text Samples.list_duplicate))
           Samples.config Loader.fresh
           (Samples.text Samples.list_duplicate)
           [{| Name := "a"; Dashboard := "h1:1" |};
            {| Name := "a"; Dashboard := "h2:2" |}]
           "a" {| Name := "a"; Dashboard := "h2:2" |}
           Samples.one_route (map_to_list Samples.mapping_duplicate));
    try reflexivity.
  discriminate.
Defined.

End PipelineClaims.


(** ** More about the route table: listing, targets, the handlers *)

Module RouteTableExtras.
Import RouteTable RouteTableFacts.

(** The names a range over a table yields, in whatever order. *)
Lemma range_names (t : gmap string Proxy) order :
  Main.range_order order →
  NoDup (order t).*1 ∧ ∀ name, name ∈ (order t).*1 ↔ is_Some (t !! name).
Proof.
  intros Ho. split; [rewrite (Ho t); apply NoDup_fst_map_to_list|].
  intros name. rewrite (Ho t), list_elem_of_fmap. split.
  - intros ([n p] & -> & Hin%elem_of_map_to_list). by exists p.
  - intros [p Hp]. exists (name, p). by rewrite elem_of_map_to_list.
Qed.

Lemma snapshot_is_Some m name :
  is_Some (snapshot m !! name)
  ↔ ∃ host, m !! name = Some host ∧ name ≠ "" ∧ host ≠ "".
Proof.
  rewrite snapshot_lookup. split.
  - destruct (m !! name) as [host|]; cbn; [|by intros [? ?]].
    case_decide as Hv; [|by intros [? ?]]. destruct Hv. by exists host.
  - intros (host & -> & ? & ?). cbn. rewrite decide_True; [by eexists|done].
Qed.

Lemma snapshot_lookup_Some m name p :
  snapshot m !! name = Some p
  ↔ ∃ host, m !! name = Some host ∧ name ≠ "" ∧ host ≠ ""
            ∧ p = new_target host.
Proof.
  rewrite snapshot_lookup. split.
  - destruct (m !! name) as [host|]; cbn; [|done].
    case_decide as Hv; [|done]. intros [= <-]. destruct Hv. by exists host.
  - intros (host & -> & ? & ? & ->). cbn. by rewrite decide_True.
Qed.

(** X1: after [Update] with a mapping, [Names] returns each name of a valid
    entry once and no other name, in whatever order the ranges run. *)
Theorem Names_after_Update r m kvs order :
  mutex r = false → kvs ≡ₚ map_to_list m → Main.range_order order →
  ∃ r' log names,
    Update_ranged kvs r = Done tt r' log
    ∧ Names_ranged order r' = Done names r' [EvLock; EvUnlock]
    ∧ NoDup names
    ∧ (∀ name, name ∈ names ↔
         ∃ host, m !! name = Some host ∧ name ≠ "" ∧ host ≠ "")
    ∧ length names = size (filter valid m).
Proof.
  intros Hmu Hp Ho. eexists _, _, _.
  split; [apply (Update_ranged_run _ _ Hmu)|].
  rewrite (foldl_loop_step_snapshot _ _ Hp).
  split; [by rewrite Names_ranged_run|]. cbn.
  destruct (range_names (snapshot m) order Ho) as [Hnd Hin].
  split; [done|]. split.
  - intros name. by rewrite Hin, snapshot_is_Some.
  - rewrite length_fmap, (Ho (snapshot m)), length_map_to_list.
    apply map_size_fmap.
Qed.

Lemma Names_lists_targets r order :
  mutex r = false → Main.range_order order →
  ∃ names,
    Names_ranged order r = Done names r [EvLock; EvUnlock]
    ∧ NoDup names
    ∧ ∀ name, name ∈ names ↔
        ∃ p, GetProxy name r = Done (Some p) r [EvLock; EvUnlock].
Proof.
  intros Hmu Ho. eexists. split; [by apply Names_ranged_run|].
  destruct (routes r) as [t|] eqn:Hrt.
  - destruct (range_names t order Ho) as [Hnd Hin]. split; [done|].
    intros name. rewrite Hin, (GetProxy_run _ _ Hmu), Hrt. split.
    + intros [p ->]. by exists p.
    + intros [p [= ->]]. by exists p.
  - split; [constructor|]. intros name.
    rewrite (GetProxy_run _ _ Hmu), Hrt. split.
    + by intros ?%elem_of_nil.
    + by intros [p [=]].
Qed.

(** X2: in any state of the table, [Names] lists a name exactly when
    [GetProxy] finds a target for it; it lists no name twice and leaves
    the table as it was. *)
Theorem Names_agrees_with_GetProxy r order :
  mutex r = false → Main.range_order order →
  ∃ names,
    Names_ranged order r = Done names r [EvLock; EvUnlock]
    ∧ NoDup names
    ∧ ∀ name, name ∈ names ↔
        ∃ p, GetProxy name r = Done (Some p) r [EvLock; EvUnlock].
Proof. apply Names_lists_targets. Qed.

(** X3: the address of a valid entry can be read back from the table:
    after [Update], [GetProxy] of its name returns a target whose host is
    the address; and every target [GetProxy] returns has the address its
    name has in the mapping, the scheme http and the shared transport. *)
Theorem target_round_trip r m kvs :
  mutex r = false → kvs ≡ₚ map_to_list m →
  ∃ r' log,
    Update_ranged kvs r = Done tt r' log
    ∧ (∀ name host,
         m !! name = Some host → name ≠ "" → host ≠ "" →
         ∃ p, GetProxy name r' = Done (Some p) r' [EvLock; EvUnlock]
              ∧ Host (target p) = host)
    ∧ (∀ name p,
         GetProxy name r' = Done (Some p) r' [EvLock; EvUnlock] →
         m !! name = Some (Host (target p))
         ∧ Scheme (target p) = "http"
         ∧ Transport p = Some roundTripper).
Proof.
  intros Hmu Hp. eexists _, _.
  split; [apply (Update_ranged_run _ _ Hmu)|].
  rewrite (foldl_loop_step_snapshot _ _ Hp). split.
  - intros name host Hm Hn Hh. exists (new_target host).
    rewrite GetProxy_run by done. cbn.
    rewrite snapshot_lookup, Hm. cbn. by rewrite decide_True.
  - intros name p. rewrite GetProxy_run by done. cbn.
    rewrite snapshot_lookup.
    destruct (m !! name) as [host|]; cbn; [|done].
    case_decide; [|done]. by intros [= <-].
Qed.

(** X4: after [Update] with a mapping, the catch-all handler forwards a
    request exactly when its [forward] parameter names a valid entry, to
    the target for that entry's address (URL scheme http, host the address,
    the shared transport); every other request is answered with Forbidden;
    the handler leaves the table as it is. *)
Theorem dispatch_after_Update r m kvs forward :
  mutex r = false → kvs ≡ₚ map_to_list m →
  ∃ r' log resp,
    Update_ranged kvs r = Done tt r' log
    ∧ dispatch forward r' = Done resp r' [EvLock; EvUnlock]
    ∧ (∀ p, resp = Served p ↔
         ∃ name host, forward = Some name ∧ m !! name = Some host
                      ∧ name ≠ "" ∧ host ≠ ""
                      ∧ p = {| target := {| Scheme := "http"; Host := host |};
                               Transport := Some roundTripper |})
    ∧ (∀ p, resp = Served p →
         ∃ name, forward = Some name
                 ∧ m !! name = Some (Host (target p))
                 ∧ Scheme (target p) = "http"
                 ∧ Transport p = Some roundTripper)
    ∧ (resp = Forbidden ↔
         ∀ name host, forward = Some name → m !! name = Some host →
                      name = "" ∨ host = "").
Proof.
  intros Hmu Hp. eexists _, _, _.
  split; [apply (Update_ranged_run _ _ Hmu)|].
  rewrite (foldl_loop_step_snapshot _ _ Hp).
  split; [by rewrite dispatch_run|]. cbn.
  destruct (snapshot m !! default "" forward) as [p0|] eqn:Hs.
  - apply snapshot_lookup_Some in Hs as (host & Hm & Hn & Hh & ->).
    destruct forward as [name|]; cbn in *; [|done]. split; [|split].
    + intros p. split.
      * intros [= <-]. by exists name, host.
      * intros (n & h & [= <-] & Hm' & _ & _ & ->).
        rewrite Hm in Hm'. by injection Hm' as <-.
    + intros p [= <-]. by exists name.
    + split; [done|]. intros Hall.
      by destruct (Hall name host eq_refl Hm).
  - split; [|split].
    + intros p. split; [done|].
      intros (n & h & -> & Hm & Hn & Hh & _). cbn in Hs.
      assert (is_Some (snapshot m !! n)) as [? Hs']
        by (apply snapshot_is_Some; eauto).
      by rewrite Hs in Hs'.
    + done.
    + split; [|done]. intros _ n h -> Hm. cbn in Hs.
      destruct (decide (n = "")) as [|Hn]; [by left|].
      destruct (decide (h = "")) as [|Hh]; [by right|].
      assert (is_Some (snapshot m !! n)) as [? Hs']
        by (apply snapshot_is_Some; eauto).
      by rewrite Hs in Hs'.
Qed.

(** *** The properties at sample inputs *)

Lemma range_order_map_to_list {V} :
  Main.range_order (λ m : gmap string V, map_to_list m).
Proof. intros m. reflexivity. Defined.

Lemma Names_after_Update_witness :
  mutex Samples.one_route = false
  ∧ ∃ r' log names,
      Update Samples.mapping_invalid Samples.one_route = Done tt r' log
      ∧ Names r' = Done names r' [EvLock; EvUnlock]
      ∧ NoDup names
      ∧ (∀ name, name ∈ names ↔
           ∃ host, Samples.mapping_invalid !! name = Some host
                   ∧ name ≠ "" ∧ host ≠ "")
      ∧ length names = size (filter valid Samples.mapping_invalid).
Proof.
  split; [reflexivity|].
  apply (Names_after_Update Samples.one_route Samples.mapping_invalid
           (map_to_list Samples.mapping_invalid) map_to_list);
    [reflexivity|reflexivity|apply range_order_map_to_list].
Defined.

Example Names_after_Update_example :
  Names Samples.route_b = Done ["b"] Samples.route_b [EvLock; EvUnlock].
Proof. vm_compute. reflexivity. Qed.

Lemma Names_agrees_with_GetProxy_witness :
  mutex Samples.two_routes = false
  ∧ ∃ names,
      Names Samples.two_routes = Done names Samples.two_routes [EvLock; EvUnlock]
      ∧ NoDup names
      ∧ ∀ name, name ∈ names ↔
          ∃ p, GetProxy name Samples.two_routes
               = Done (Some p) Samples.two_routes [EvLock; EvUnlock].
Proof.
  split; [reflexivity|].
  apply (Names_agrees_with_GetProxy Samples.two_routes map_to_list);
    [reflexivity|apply range_order_map_to_list].
Defined.

Lemma target_round_trip_witness :
  mutex Samples.one_route = false
  ∧ ∃ r' log,
      Update Samples.mapping_invalid Samples.one_route = Done tt r' log
      ∧ (∀ name host,
           Samples.mapping_invalid !! name = Some host →
           name ≠ "" → host ≠ "" →
           ∃ p, GetProxy name r' = Done (Some p) r' [EvLock; EvUnlock]
                ∧ Host (target p) = host)
      ∧ (∀ name p,
           GetProxy name r' = Done (Some p) r' [EvLock; EvUnlock] →
           Samples.mapping_invalid !! name = Some (Host (target p))
           ∧ Scheme (target p) = "http"
           ∧ Transport p = Some roundTripper).
Proof.
  split; [reflexivity|].
  apply (target_round_trip Samples.one_route Samples.mapping_invalid
           (map_to_list Samples.mapping_invalid)); reflexivity.
Defined.

Lemma dispatch_after_Update_witness :
  mutex Samples.one_route = false
  ∧ ∃ r' log resp,
      Update Samples.mapping_invalid Samples.one_route = Done tt r' log
      ∧ dispatch (Some "b") r' = Done resp r' [EvLock; EvUnlock]
      ∧ (∀ p, resp = Served p ↔
           ∃ name host,
             Some "b" = Some name ∧ Samples.mapping_invalid !! name = Some host
             ∧ name ≠ "" ∧ host ≠ ""
             ∧ p = {| target := {| Scheme := "http"; Host := host |};
                      Transport := Some roundTripper |})
      ∧ (∀ p, resp = Served p →
           ∃ name, Some "b" = Some name
                   ∧ Samples.mapping_invalid !! name = Some (Host (target p))
                   ∧ Scheme (target p) = "http"
                   ∧ Transport p = Some roundTripper)
      ∧ (resp = Forbidden ↔
           ∀ name host,
             Some "b" = Some name →
             Samples.mapping_invalid !! name = Some host →
             name = "" ∨ host = "").
Proof.
  split; [reflexivity|].
  apply (dispatch_after_Update Samples.one_route Samples.mapping_invalid
           (map_to_list Samples.mapping_invalid) (Some "b")); reflexivity.
Defined.

Example dispatch_examples :
  dispatch (Some "b") Samples.route_b
  = Done (Served {| target := {| Scheme := "http"; Host := "h2:2" |};
                    Transport := Some (DialTimeout 10) |})
      Samples.route_b [EvLock; EvUnlock]
  ∧ dispatch (Some "a") Samples.route_b
    = Done Forbidden Samples.route_b [EvLock; EvUnlock]
  ∧ dispatch (Some "old") Samples.route_b
    = Done Forbidden Samples.route_b [EvLock; EvUnlock]
  ∧ dispatch None fresh = Done Forbidden fresh [EvLock; EvUnlock].
Proof. vm_compute. repeat split. Qed.

End RouteTableExtras.

(** ** More about the loader *)

Module LoaderExtras.
Import Loader LoaderFacts.

Section Faults.

Context {Err : Type}.
Variable Trace : option Err → option Err.
Variable Unmarshal : list Byte.byte → Err + list (option Entry).
Variable fs : FileSystem Err.
Variable path : string.

Lemma Load_range_Fault list m l f :
  Load_range list m l = Fault f → f = NilDereference ∧ None ∈ list.
Proof.
  revert m. induction list as [|[e|] list IH]; intros m; cbn.
  - done.
  - intros [-> Hin]%IH. split; [done|]. by right.
  - intros [= <-]. split; [done|]. by left.
Qed.

Lemma Load_Fault l f :
  Load Trace Unmarshal fs path l = Fault f →
  f = NilDereference
  ∧ ∃ b list, ReadFile fs path = inr b ∧ Unmarshal b = inr list
              ∧ None ∈ list.
Proof.
  unfold Load, bind, tell.
  destruct (ReadFile fs path) as [e|b]; [done|].
  destruct (Unmarshal b) as [e|list] eqn:Hun; [done|].
  destruct (Load_range list ∅ l) as [m0 l0 log0|f0] eqn:H; [done|].
  intros [= <-]. apply Load_range_Fault in H as [-> Hin].
  split; [done|]. by exists b, list.
Qed.

Lemma Reload_Fault l f :
  Reload Trace Unmarshal fs path l = Fault f →
  f = NilDereference
  ∧ ∃ fi b list,
      Stat fs path = inr fi ∧ Equal (ModTime fi) (last l) = false
      ∧ ReadFile fs path = inr b ∧ Unmarshal b = inr list ∧ None ∈ list.
Proof.
  destruct (Stat fs path) as [e|fi] eqn:Hst.
  { by rewrite (Reload_stat_error _ _ _ _ _ _ Hst). }
  destruct (Equal (ModTime fi) (last l)) eqn:Heq.
  { by rewrite (Reload_unchanged _ _ _ _ _ _ Hst Heq). }
  rewrite (Reload_changed _ _ _ _ _ _ Hst Heq).
  destruct (Load Trace Unmarshal fs path l) as [[m0 [e|]] l0 log0|f0] eqn:HL;
    [done..|].
  intros [= <-]. apply Load_Fault in HL as [-> (b & list & ? & ? & ?)].
  split; [done|]. by exists fi, b, list.
Qed.

(** X5: [Reload] fails to return exactly when the modification time is new
    and the decoded list has a null element, in whatever position: the loop
    of [Load] then panics on the nil pointer. *)
Theorem Reload_panics_iff l f :
  Reload Trace Unmarshal fs path l = Fault f
  ↔ f = NilDereference
    ∧ ∃ fi b list,
        Stat fs path = inr fi ∧ Equal (ModTime fi) (last l) = false
        ∧ ReadFile fs path = inr b ∧ Unmarshal b = inr list ∧ None ∈ list.
Proof.
  split.
  - apply Reload_Fault.
  - intros [-> (fi & b & list & Hst & Heq & Hrd & Hun & Hin)].
    rewrite (Reload_changed _ _ _ _ _ _ Hst Heq).
    by rewrite (Load_nil_pointer _ _ _ _ _ _ _ Hrd Hun Hin).
Qed.

(** X6: when [Load] returns, the loader's timestamp is as it was, the file
    was read, and exactly one of the mapping and the error is non-nil
    (given that [errors.Trace] keeps a non-nil error non-nil). *)
Theorem Load_result l m err l' log :
  (∀ e, is_Some (Trace (Some e))) →
  Load Trace Unmarshal fs path l = Done (m, err) l' log →
  l' = l
  ∧ (is_Some m ↔ err = None)
  ∧ ∃ log', log = EvReadFile path :: log'.
Proof.
  intros HT. unfold Load, bind, tell.
  destruct (ReadFile fs path) as [e|b].
  { intros [= <- <- <- <-]. destruct (HT e) as [e' ->].
    split; [done|]. split; [|by eexists].
    split; [by intros [? ?]|done]. }
  destruct (Unmarshal b) as [e|list].
  { intros [= <- <- <- <-]. destruct (HT e) as [e' ->].
    split; [done|]. split; [|by eexists].
    split; [by intros [? ?]|done]. }
  destruct (Load_range list ∅ l) as [m0 l0 log0|f] eqn:H3; [|done].
  apply Load_range_Done in H3 as (es & -> & -> & -> & ->).
  intros [= <- <- <- <-]. split; [done|]. split; [|by eexists].
  split; [done|by eexists].
Qed.

End Faults.

(** *** The properties at sample inputs *)

Example Reload_panics_example :
  Reload Samples.Trace Samples.Unmarshal
    (Samples.file_system Samples.noon (Samples.text Samples.list_null))
    Samples.config fresh
  = Fault NilDereference.
Proof. vm_compute. reflexivity. Qed.

Lemma Load_result_witness :
  (∀ e, is_Some (Samples.Trace (Some e)))
  ∧ Load Samples.Trace Samples.Unmarshal
      (Samples.file_system Samples.noon (Samples.text Samples.list_duplicate))
      Samples.config fresh
    = Done (Some Samples.mapping_duplicate, None) fresh
        [EvReadFile Samples.config;
         EvUnmarshal (Samples.text Samples.list_duplicate)]
  ∧ fresh = fresh
  ∧ (is_Some (Some Samples.mapping_duplicate) ↔ @None string = None)
  ∧ ∃ log',
      [EvReadFile Samples.config;
       EvUnmarshal (Samples.text Samples.list_duplicate)]
      = EvReadFile Samples.config :: log'.
Proof.
  assert (H : Load Samples.Trace Samples.Unmarshal
      (Samples.file_system Samples.noon (Samples.text Samples.list_duplicate))
      Samples.config fresh
    = Done (Some Samples.mapping_duplicate, None) fresh
        [EvReadFile Samples.config;
         EvUnmarshal (Samples.text Samples.list_duplicate)]).
  { vm_compute. reflexivity. }
  split; [exact Trace_sample_nonnil|]. split; [exact H|].
  apply (Load_result Samples.Trace Samples.Unmarshal _ _ _ _ _ _ _
           Trace_sample_nonnil H).
Defined.

End LoaderExtras.

(** ** The goroutines of [main]: the reload loop and the handlers *)

Module MainFacts.
Import RouteTable RouteTableFacts RouteTableExtras.
Import Loader LoaderFacts LoaderExtras.
Import Main.

Lemma sort_Strings_Permutation names names' :
  names ≡ₚ names' → sort_Strings names = sort_Strings names'.
Proof.
  intros Hp. unfold sort_Strings.
  apply (Sorted_unique String.le); [apply Sorted_merge_sort, _..|].
  by rewrite !merge_sort_Permutation.
Qed.

(** X7: the body of the [/list] answer is made from the names that have a
    target, each once, in ascending order; it is the same whatever order
    the range over the table takes, and the table is left as it was. *)
Theorem list_handler_sorted (ApiResponseJson : list string → Z * string)
    r order :
  mutex r = false → range_order order →
  ∃ names,
    list_handler ApiResponseJson order r
    = Done (ApiResponseJson names) r [EvLock; EvUnlock]
    ∧ Sorted String.le names
    ∧ NoDup names
    ∧ (∀ name, name ∈ names ↔
         ∃ p, GetProxy name r = Done (Some p) r [EvLock; EvUnlock])
    ∧ (∀ order', range_order order' →
         list_handler ApiResponseJson order' r
         = Done (ApiResponseJson names) r [EvLock; EvUnlock]).
Proof.
  intros Hmu Ho.
  destruct (Names_lists_targets r order Hmu Ho)
    as (names & Hrun & Hnd & Hin).
  exists (sort_Strings names). split; [|split; [|split; [|split]]].
  - unfold list_handler, bind. by rewrite Hrun.
  - apply Sorted_merge_sort, _.
  - unfold sort_Strings. by rewrite merge_sort_Permutation.
  - intros name. unfold sort_Strings. by rewrite merge_sort_Permutation.
  - intros order' Ho'.
    destruct (Names_lists_targets r order' Hmu Ho')
      as (names' & Hrun' & Hnd' & Hin').
    unfold list_handler, bind. rewrite Hrun'. cbn.
    rewrite (sort_Strings_Permutation names' names); [done|].
    apply NoDup_Permutation; [done..|].
    intros name. by rewrite Hin, Hin'.
Qed.

Section ReloadLoop.

Context {Err : Type}.
Variable Trace : option Err → option Err.
Variable Unmarshal : list Byte.byte → Err + list (option Entry).
Variable config : string.

Abbreviation turn := (reload_turn Trace Unmarshal).

(** A turn is [Reload], then the branch of [main] its result selects. *)
Lemma reload_turn_run fs order p :
  turn fs config order p
  = match Reload Trace Unmarshal fs config (loader p) with
    | Fault f => Fault f
    | Done (_, Some e) l log =>
        Done tt {| loader := l; router := router p |}
          ((OfLoader <$> log) ++ [Warn e; Sleep 5])
    | Done (None, None) l log =>
        Done tt {| loader := l; router := router p |}
          ((OfLoader <$> log) ++ [Sleep 1])
    | Done (Some m, None) l log =>
        match Update_ranged (order m) (router p) with
        | Fault f => Fault f
        | Done _ r log' =>
            Done tt {| loader := l; router := r |}
              ((OfLoader <$> log) ++ Info m :: (OfRouter <$> log')
               ++ [Sleep 1])
        end
    end.
Proof.
  unfold reload_turn, bind at 1, on_loader at 1.
  destruct (Reload Trace Unmarshal fs config (loader p))
    as [[[m|] [e|]] l log|f]; try done.
  unfold bind, on_router, tell; cbn.
  by destruct (Update_ranged (order m) (router p)) as [[] r log'|f].
Qed.

(** X8: a turn whose [Reload] fails (the file cannot be inspected, cannot
    be read, or does not parse) changes neither the loader nor the table,
    does not take the table's lock, logs the error and sleeps five
    seconds. *)
Theorem failed_turn_keeps_routes fs order p :
  (∀ e, is_Some (Trace (Some e))) →
  (∀ e, Stat fs config = inl e →
     ∃ e', Trace (Some e) = Some e'
       ∧ turn fs config order p
         = Done tt p [OfLoader (EvStat config); Warn e'; Sleep 5])
  ∧ (∀ fi e,
       Stat fs config = inr fi →
       Equal (ModTime fi) (last (loader p)) = false →
       ReadFile fs config = inl e →
       ∃ e', Trace (Some e) = Some e'
         ∧ turn fs config order p
           = Done tt p [OfLoader (EvStat config); OfLoader (EvReadFile config);
                        Warn e'; Sleep 5])
  ∧ (∀ fi b e,
       Stat fs config = inr fi →
       Equal (ModTime fi) (last (loader p)) = false →
       ReadFile fs config = inr b → Unmarshal b = inl e →
       ∃ e', Trace (Some e) = Some e'
         ∧ turn fs config order p
           = Done tt p [OfLoader (EvStat config); OfLoader (EvReadFile config);
                        OfLoader (EvUnmarshal b); Warn e'; Sleep 5]).
Proof.
  intros HT. destruct p as [l r]. split; [|split].
  - intros e Hst. destruct (HT e) as [e' He]. exists e'. split; [done|].
    rewrite reload_turn_run. cbn [loader router].
    rewrite (Reload_stat_error _ _ _ _ _ _ Hst). by rewrite He.
  - intros fi e Hst Heq Hrd. destruct (HT e) as [e' He]. exists e'.
    split; [done|]. rewrite reload_turn_run. cbn [loader router] in *.
    rewrite (Reload_changed _ _ _ _ _ _ Hst Heq).
    rewrite (Load_read_error _ _ _ _ _ _ Hrd). by rewrite He.
  - intros fi b e Hst Heq Hrd Hun. destruct (HT e) as [e' He]. exists e'.
    split; [done|]. rewrite reload_turn_run. cbn [loader router] in *.
    rewrite (Reload_changed _ _ _ _ _ _ Hst Heq).
    rewrite (Load_parse_error _ _ _ _ _ _ _ Hrd Hun). by rewrite He.
Qed.

(** X9: a turn that finds the remembered modification time inspects the
    file and sleeps one second: it reads nothing, logs nothing, and does not
    take the table's lock. *)
Theorem unchanged_turn_skips_Update fs order p fi :
  Trace None = None →
  Stat fs config = inr fi → Equal (ModTime fi) (last (loader p)) = true →
  turn fs config order p = Done tt p [OfLoader (EvStat config); Sleep 1].
Proof.
  intros HT Hst Heq. destruct p as [l r]. rewrite reload_turn_run.
  cbn [loader router] in *.
  rewrite (Reload_unchanged _ _ _ _ _ _ Hst Heq). by rewrite HT.
Qed.

Lemma loaded_turn_run fs order p fi b es :
  mutex (router p) = false →
  Stat fs config = inr fi →
  Equal (ModTime fi) (last (loader p)) = false →
  ReadFile fs config = inr b → Unmarshal b = inr (Some <$> es) →
  turn fs config order p
  = Done tt
      {| loader := {| last := ModTime fi |};
         router := {| mutex := false;
                      routes := Some (foldl loop_step ∅ (order (built es))) |} |}
      ([OfLoader (EvStat config); OfLoader (EvReadFile config);
        OfLoader (EvUnmarshal b); Info (built es);
        OfRouter EvLock; OfRouter EvMake]
       ++ (OfRouter <$> stores (order (built es)))
       ++ [OfRouter EvUnlock; Sleep 1]).
Proof.
  intros Hmu Hst Heq Hrd Hun. rewrite reload_turn_run.
  rewrite (Reload_changed _ _ _ _ _ _ Hst Heq).
  rewrite (Load_records _ _ _ _ _ _ _ Hrd Hun).
  rewrite (Update_ranged_run _ _ Hmu). cbn.
  by rewrite fmap_app, <- app_assoc.
Qed.

(** X10: a turn that finds a new modification time and a list of records
    remembers the time and installs the snapshot of the mapping built from
    the list; it logs the mapping before it takes the lock, and sleeps one
    second after it has released it. *)
Theorem loaded_turn_installs fs order p fi b es :
  range_order order →
  mutex (router p) = false →
  Stat fs config = inr fi →
  Equal (ModTime fi) (last (loader p)) = false →
  ReadFile fs config = inr b → Unmarshal b = inr (Some <$> es) →
  turn fs config order p
  = Done tt
      {| loader := {| last := ModTime fi |};
         router := {| mutex := false;
                      routes := Some (snapshot (built es)) |} |}
      ([OfLoader (EvStat config); OfLoader (EvReadFile config);
        OfLoader (EvUnmarshal b); Info (built es);
        OfRouter EvLock; OfRouter EvMake]
       ++ (OfRouter <$> stores (order (built es)))
       ++ [OfRouter EvUnlock; Sleep 1]).
Proof.
  intros Ho Hmu Hst Heq Hrd Hun.
  rewrite (loaded_turn_run _ _ _ _ _ _ Hmu Hst Heq Hrd Hun).
  by rewrite (foldl_loop_step_snapshot _ _ (Ho (built es))).
Qed.

(** X11: after a turn that loaded the file, a turn on the same file system
    is idle: it inspects the file, leaves loader and table as they are, and
    does not take the table's lock. *)
Theorem turn_after_load_is_idle fs order order' p fi b es :
  Trace None = None →
  mutex (router p) = false →
  Stat fs config = inr fi →
  Equal (ModTime fi) (last (loader p)) = false →
  ReadFile fs config = inr b → Unmarshal b = inr (Some <$> es) →
  ∃ p' log,
    turn fs config order p = Done tt p' log
    ∧ last (loader p') = ModTime fi
    ∧ turn fs config order' p'
      = Done tt p' [OfLoader (EvStat config); Sleep 1].
Proof.
  intros HT Hmu Hst Heq Hrd Hun. eexists _, _.
  split; [by apply (loaded_turn_run _ _ _ _ _ _ Hmu Hst Heq Hrd Hun)|].
  split; [done|].
  rewrite reload_turn_run. cbn [loader router].
  rewrite (Reload_unchanged _ _ _ _ _ fi Hst) by apply Equal_refl.
  by rewrite HT.
Qed.

(** X12: a file whose list is empty is loaded like any other: the turn
    installs the empty table, so that every route is gone, and remembers
    the modification time. *)
Theorem empty_list_erases_routes fs order p fi b :
  range_order order →
  mutex (router p) = false →
  Stat fs config = inr fi →
  Equal (ModTime fi) (last (loader p)) = false →
  ReadFile fs config = inr b → Unmarshal b = inr [] →
  ∃ p' log,
    turn fs config order p = Done tt p' log
    ∧ loader p' = {| last := ModTime fi |}
    ∧ routes (router p') = Some ∅
    ∧ (∀ name,
         GetProxy name (router p')
         = Done None (router p') [EvLock; EvUnlock]).
Proof.
  intros Ho Hmu Hst Heq Hrd Hun. eexists _, _.
  split; [by apply (loaded_turn_run fs order p fi b [] Hmu Hst Heq Hrd Hun)|].
  cbn [loader router routes]. split; [done|].
  assert (Hb : order (built []) = []).
  { apply Permutation_nil_r. rewrite (Ho (built [])).
    unfold built. cbn. by rewrite map_to_list_empty. }
  rewrite Hb. cbn. split; [done|].
  intros name. by rewrite lookup_empty.
Qed.

Lemma turn_consistent fs order p :
  (∀ e, is_Some (Trace (Some e))) →
  range_order order →
  consistent p →
  (∀ f, turn fs config order p = Fault f → f = NilDereference)
  ∧ (∀ p' log, turn fs config order p = Done tt p' log → consistent p').
Proof.
  intros HT Ho [Hre Hl]. rewrite reload_turn_run.
  destruct (reachable_inv _ Hre) as [Hmu _].
  destruct (Reload Trace Unmarshal fs config (loader p))
    as [[[m|] [e|]] l log|f] eqn:HR.
  - apply (Reload_Done_changed _ _ _ _ _ _ _ _ HT) in HR
      as [->|(fi & m' & _ & [=] & _)].
    split; [done|]. by intros p' log' [= <- _].
  - rewrite (Update_ranged_run _ _ Hmu). split; [done|].
    intros p' log' [= <- _]. split; [|done]. cbn.
    eapply (reach_Update _ m (order m)); [done|apply Ho|].
    apply (Update_ranged_run _ _ Hmu).
  - apply (Reload_Done_changed _ _ _ _ _ _ _ _ HT) in HR
      as [->|(fi & m' & _ & [=] & _)].
    split; [done|]. by intros p' log' [= <- _].
  - apply (Reload_Done_changed _ _ _ _ _ _ _ _ HT) in HR
      as [->|(fi & m' & _ & [=] & _)].
    split; [done|]. by intros p' log' [= <- _].
  - split; [|done]. intros f' [= <-]. by apply Reload_Fault in HR as [-> _].
Qed.

Lemma reload_loop_consistent envs p :
  (∀ e, is_Some (Trace (Some e))) →
  (∀ env, env ∈ envs → range_order env.2) →
  consistent p →
  (∀ f, reload_loop Trace Unmarshal config envs p = Fault f →
     f = NilDereference)
  ∧ (∀ p' log, reload_loop Trace Unmarshal config envs p = Done tt p' log →
       consistent p').
Proof.
  intros HT. revert p. induction envs as [|env envs IH]; intros p Ho Hc.
  { split; [done|]. by intros p' log [= <- _]. }
  unfold reload_loop. cbn [for_range]. unfold bind.
  destruct (turn_consistent env.1 env.2 p HT) as [Hf Hd];
    [apply Ho; by left|done|].
  destruct (reload_turn Trace Unmarshal env.1 config env.2 p)
    as [[] p1 log1|f1].
  - destruct (IH p1) as [Hf' Hd'];
      [intros ??; apply Ho; by right|by eapply Hd|].
    unfold reload_loop in Hf', Hd'.
    destruct (for_range envs _ p1) as [[] p2 log2|f2].
    + split; [done|]. intros p' log [= <- _]. by eapply Hd'.
    + split; [|done]. intros f [= <-]. by apply Hf'.
  - split; [|done]. intros f [= <-]. by apply Hf.
Qed.

(** X13: however many turns the loop has run, on whatever file systems and
    in whatever range orders, it has either panicked on a null element or
    left the process consistent: the table's lock is free, the table is in a
    state [Update] leaves (so the empty name has no target), and the loader
    remembers a modification time only if a map was installed.  Run on its
    own, the loop never locks a mutex it already holds, never unlocks a
    free one and never writes to a nil map. *)
Theorem reload_loop_invariant envs :
  (∀ e, is_Some (Trace (Some e))) →
  (∀ env, env ∈ envs → range_order env.2) →
  (∀ f, reload_loop Trace Unmarshal config envs start = Fault f →
     f = NilDereference)
  ∧ (∀ p log,
       reload_loop Trace Unmarshal config envs start = Done tt p log →
       mutex (router p) = false
       ∧ reachable (router p)
       ∧ GetProxy "" (router p) = Done None (router p) [EvLock; EvUnlock]
       ∧ (routes (router p) = None → last (loader p) = zero_Time)).
Proof.
  intros HT Ho.
  destruct (reload_loop_consistent envs start HT Ho) as [Hf Hd].
  { split; [apply reach_fresh|done]. }
  split; [done|]. intros p log [Hre Hl]%Hd.
  destruct (reachable_inv _ Hre) as [Hmu Hrt].
  split; [done|]. split; [done|]. split; [|done].
  rewrite (GetProxy_run _ _ Hmu).
  destruct Hrt as [->|[m ->]]; [done|].
  rewrite snapshot_lookup. destruct (m !! "") as [host|]; cbn; [|done].
  rewrite decide_False; [done|]. by intros [? _].
Qed.

(** X14: while every [Reload] comes back without a mapping (the file is
    missing, unreadable, malformed or unchanged), the loop leaves loader
    and table exactly as they were, however many turns it runs, and never
    takes the table's lock: the routes installed before stay in service. *)
Theorem outage_keeps_routes envs p :
  (∀ e, is_Some (Trace (Some e))) →
  (∀ env, env ∈ envs →
     ∃ err l' log,
       Reload Trace Unmarshal env.1 config (loader p)
       = Done (None, err) l' log) →
  ∃ log,
    reload_loop Trace Unmarshal config envs p = Done tt p log
    ∧ ∀ e, OfRouter e ∉ log.
Proof.
  intros HT. induction envs as [|env envs IH]; intros Hall.
  { exists []. split; [done|]. intros e. apply not_elem_of_nil. }
  destruct IH as (log2 & Hrun2 & Hno2); [intros ??; apply Hall; by right|].
  destruct (Hall env) as (err & l' & log1 & HR); [by left|].
  assert (l' = loader p) as ->.
  { by destruct (Reload_Done_changed _ _ _ _ _ _ _ _ HT HR)
      as [->|(? & ? & _ & [=] & _)]. }
  unfold reload_loop in *. cbn [for_range]. unfold bind.
  rewrite reload_turn_run, HR. destruct p as [l r]. cbn [loader router] in *.
  destruct err as [e|]; rewrite Hrun2; eexists; (split; [done|]);
    intros e0; rewrite !elem_of_app, list_elem_of_fmap;
    intros [[(? & [=] & _)|Hin]|Hin]; try by eapply Hno2.
  - apply elem_of_cons in Hin as [[=]|Hin].
    by apply list_elem_of_singleton in Hin.
  - by apply list_elem_of_singleton in Hin.
Qed.

(** X15: a turn that returns ends with its one sleep: five seconds when it
    logged an error, one second when it did not. *)
Theorem turn_ends_with_sleep fs order p p' log :
  turn fs config order p = Done tt p' log →
  ∃ log' n,
    log = log' ++ [Sleep n]
    ∧ (∀ k, Sleep k ∉ log')
    ∧ ((n = 5%Z ∧ ∃ e, Warn e ∈ log') ∨ (n = 1%Z ∧ ∀ e, Warn e ∉ log')).
Proof.
  rewrite reload_turn_run.
  destruct (Reload Trace Unmarshal fs config (loader p))
    as [[[m|] [e|]] l log0|f]; [| |..|done].
  - intros [= <- <-]. exists ((OfLoader <$> log0) ++ [Warn e]), 5%Z.
    split; [by rewrite <- app_assoc|]. split.
    + intros k. rewrite elem_of_app, list_elem_of_fmap.
      intros [(? & [=] & _)|Hin]. by apply list_elem_of_singleton in Hin.
    + left. split; [done|]. exists e. rewrite elem_of_app. right. by left.
  - destruct (Update_ranged (order m) (router p)) as [[] r log1|f]; [|done].
    intros [= <- <-].
    exists ((OfLoader <$> log0) ++ Info m :: (OfRouter <$> log1)), 1%Z.
    split; [by rewrite <- app_assoc|]. split.
    + intros k. rewrite elem_of_app, elem_of_cons, !list_elem_of_fmap.
      by intros [(? & [=] & _)|[[=]|(? & [=] & _)]].
    + right. split; [done|]. intros e.
      rewrite elem_of_app, elem_of_cons, !list_elem_of_fmap.
      by intros [(? & [=] & _)|[[=]|(? & [=] & _)]].
  - intros [= <- <-]. exists ((OfLoader <$> log0) ++ [Warn e]), 5%Z.
    split; [by rewrite <- app_assoc|]. split.
    + intros k. rewrite elem_of_app, list_elem_of_fmap.
      intros [(? & [=] & _)|Hin]. by apply list_elem_of_singleton in Hin.
    + left. split; [done|]. exists e. rewrite elem_of_app. right. by left.
  - intros [= <- <-]. exists (OfLoader <$> log0), 1%Z.
    split; [done|]. split.
    + intros k. rewrite list_elem_of_fmap. by intros (? & [=] & _).
    + right. split; [done|]. intros e. rewrite list_elem_of_fmap.
      by intros (? & [=] & _).
Qed.

End ReloadLoop.

(** *** The properties at sample inputs *)

Lemma list_handler_sorted_witness :
  mutex Samples.two_routes = false
  ∧ ∃ names,
      list_handler Samples.ApiResponseJson map_to_list Samples.two_routes
      = Done (Samples.ApiResponseJson names) Samples.two_routes
          [EvLock; EvUnlock]
      ∧ Sorted String.le names
      ∧ NoDup names
      ∧ (∀ name, name ∈ names ↔
           ∃ p, GetProxy name Samples.two_routes
                = Done (Some p) Samples.two_routes [EvLock; EvUnlock])
      ∧ (∀ order', range_order order' →
           list_handler Samples.ApiResponseJson order' Samples.two_routes
           = Done (Samples.ApiResponseJson names) Samples.two_routes
               [EvLock; EvUnlock]).
Proof.
  split; [reflexivity|].
  apply (list_handler_sorted Samples.ApiResponseJson Samples.two_routes
           map_to_list); [reflexivity|apply range_order_map_to_list].
Defined.

Example list_handler_example :
  list_handler Samples.ApiResponseJson map_to_list Samples.two_routes
  = Done (200%Z, "[a,b]") Samples.two_routes [EvLock; EvUnlock]
  ∧ list_handler Samples.ApiResponseJson (λ t, reverse (map_to_list t))
      Samples.two_routes
    = Done (200%Z, "[a,b]") Samples.two_routes [EvLock; EvUnlock]
  ∧ list_handler Samples.ApiResponseJson map_to_list RouteTable.fresh
    = Done (200%Z, "[]") RouteTable.fresh [EvLock; EvUnlock].
Proof. vm_compute. repeat split. Qed.

Lemma failed_turn_keeps_routes_witness :
  (∀ e, is_Some (Samples.Trace (Some e)))
  ∧ reload_turn Samples.Trace Samples.Unmarshal Samples.missing
      Samples.config map_to_list Samples.loaded
    = Done tt Samples.loaded
        [OfLoader (EvStat Samples.config);
         Warn "[stack] stat: no such file or directory"; Sleep 5]
  ∧ reload_turn Samples.Trace Samples.Unmarshal
      (Samples.unreadable Samples.later) Samples.config map_to_list
      Samples.loaded
    = Done tt Samples.loaded
        [OfLoader (EvStat Samples.config);
         OfLoader (EvReadFile Samples.config);
         Warn "[stack] open: permission denied"; Sleep 5]
  ∧ reload_turn Samples.Trace Samples.Unmarshal
      (Samples.file_system Samples.later Samples.malformed) Samples.config
      map_to_list Samples.loaded
    = Done tt Samples.loaded
        [OfLoader (EvStat Samples.config);
         OfLoader (EvReadFile Samples.config);
         OfLoader (EvUnmarshal Samples.malformed);
         Warn "[stack] unexpected end of JSON input"; Sleep 5].
Proof.
  split; [exact Trace_sample_nonnil|]. split; [|split].
  - destruct (proj1 (failed_turn_keeps_routes Samples.Trace Samples.Unmarshal
                       Samples.config Samples.missing map_to_list
                       Samples.loaded Trace_sample_nonnil)
                "stat: no such file or directory" eq_refl)
      as (e' & He & Hrun).
    injection He as <-. exact Hrun.
  - destruct (proj1 (proj2 (failed_turn_keeps_routes Samples.Trace
                       Samples.Unmarshal Samples.config
                       (Samples.unreadable Samples.later) map_to_list
                       Samples.loaded Trace_sample_nonnil))
                {| ModTime := Samples.later |} "open: permission denied"
                eq_refl eq_refl eq_refl)
      as (e' & He & Hrun).
    injection He as <-. exact Hrun.
  - destruct (proj2 (proj2 (failed_turn_keeps_routes Samples.Trace
                       Samples.Unmarshal Samples.config
                       (Samples.file_system Samples.later Samples.malformed)
                       map_to_list Samples.loaded Trace_sample_nonnil))
                {| ModTime := Samples.later |} Samples.malformed
                "unexpected end of JSON input" eq_refl eq_refl eq_refl eq_refl)
      as (e' & He & Hrun).
    injection He as <-. exact Hrun.
Defined.

Lemma unchanged_turn_skips_Update_witness :
  Samples.Trace None = None
  ∧ Equal Samples.noon (last (loader Samples.loaded)) = true
  ∧ reload_turn Samples.Trace Samples.Unmarshal
      (Samples.file_system Samples.noon (Samples.text Samples.list_duplicate))
      Samples.config map_to_list Samples.loaded
    = Done tt Samples.loaded [OfLoader (EvStat Samples.config); Sleep 1].
Proof.
  split; [reflexivity|]. split; [reflexivity|].
  apply (unchanged_turn_skips_Update Samples.Trace Samples.Unmarshal
           Samples.config
           (Samples.file_system Samples.noon
              (Samples.text Samples.list_duplicate))
           map_to_list Samples.loaded {| ModTime := Samples.noon |});
    reflexivity.
Defined.

Lemma loaded_turn_installs_witness :
  mutex (router start) = false
  ∧ Samples.Unmarshal (Samples.text Samples.list_invalid)
    = inr (Some <$> Samples.records_invalid)
  ∧ reload_turn Samples.Trace Samples.Unmarshal
      (Samples.file_system Samples.noon (Samples.text Samples.list_invalid))
      Samples.config map_to_list start
    = Done tt Samples.loaded
        [OfLoader (EvStat Samples.config);
         OfLoader (EvReadFile Samples.config);
         OfLoader (EvUnmarshal (Samples.text Samples.list_invalid));
         Info Samples.mapping_invalid;
         OfRouter EvLock; OfRouter EvMake;
         OfRouter (EvStore "b" (new_target "h2:2"));
         OfRouter EvUnlock; Sleep 1].
Proof.
  split; [reflexivity|]. split; [reflexivity|].
  etransitivity.
  - apply (loaded_turn_installs Samples.Trace Samples.Unmarshal Samples.config
             (Samples.file_system Samples.noon
                (Samples.text Samples.list_invalid))
             map_to_list start {| ModTime := Samples.noon |}
             (Samples.text Samples.list_invalid) Samples.records_invalid);
      [apply range_order_map_to_list|reflexivity..].
  - vm_compute. reflexivity.
Defined.

Lemma turn_after_load_is_idle_witness :
  Samples.Trace None = None
  ∧ ∃ p' log,
      reload_turn Samples.Trace Samples.Unmarshal
        (Samples.file_system Samples.noon (Samples.text Samples.list_invalid))
        Samples.config map_to_list start
      = Done tt p' log
      ∧ last (loader p') = Samples.noon
      ∧ reload_turn Samples.Trace Samples.Unmarshal
          (Samples.file_system Samples.noon
             (Samples.text Samples.list_invalid))
          Samples.config map_to_list p'
        = Done tt p' [OfLoader (EvStat Samples.config); Sleep 1].
Proof.
  split; [reflexivity|].
  apply (turn_after_load_is_idle Samples.Trace Samples.Unmarshal
           Samples.config
           (Samples.file_system Samples.noon
              (Samples.text Samples.list_invalid))
           map_to_list map_to_list start {| ModTime := Samples.noon |}
           (Samples.text Samples.list_invalid) Samples.records_invalid);
    reflexivity.
Defined.

Lemma empty_list_erases_routes_witness :
  mutex (router Samples.loaded) = false
  ∧ Samples.Unmarshal (Samples.text []) = inr []
  ∧ ∃ p' log,
      reload_turn Samples.Trace Samples.Unmarshal
        (Samples.file_system Samples.later (Samples.text []))
        Samples.config map_to_list Samples.loaded
      = Done tt p' log
      ∧ loader p' = {| last := Samples.later |}
      ∧ routes (router p') = Some ∅
      ∧ (∀ name,
           GetProxy name (router p')
           = Done None (router p') [EvLock; EvUnlock]).
Proof.
  split; [reflexivity|]. split; [reflexivity|].
  apply (empty_list_erases_routes Samples.Trace Samples.Unmarshal
           Samples.config
           (Samples.file_system Samples.later (Samples.text []))
           map_to_list Samples.loaded {| ModTime := Samples.later |}
           (Samples.text []));
    [apply range_order_map_to_list|reflexivity..].
Defined.

Lemma sample_orders envs :
  Forall (λ env, env.2 = map_to_list) envs →
  ∀ env : FileSystem string
          * (gmap string string → list (string * string)),
    env ∈ envs → range_order env.2.
Proof.
  intros Hall env Hin. rewrite Forall_forall in Hall.
  rewrite (Hall env Hin). apply range_order_map_to_list.
Defined.

Lemma reload_loop_invariant_witness :
  (∀ e, is_Some (Samples.Trace (Some e)))
  ∧ reload_loop Samples.Trace Samples.Unmarshal Samples.config
      Samples.history start
    = Done tt Samples.loaded Samples.history_log
  ∧ mutex (router Samples.loaded) = false
  ∧ reachable (router Samples.loaded)
  ∧ GetProxy "" (router Samples.loaded)
    = Done None (router Samples.loaded) [EvLock; EvUnlock]
  ∧ (routes (router Samples.loaded) = None →
     last (loader Samples.loaded) = zero_Time).
Proof.
  assert (H : reload_loop Samples.Trace Samples.Unmarshal Samples.config
      Samples.history start
    = Done tt Samples.loaded Samples.history_log).
  { vm_compute. reflexivity. }
  split; [exact Trace_sample_nonnil|]. split; [exact H|].
  apply (proj2 (reload_loop_invariant Samples.Trace Samples.Unmarshal
                  Samples.config Samples.history Trace_sample_nonnil
                  (sample_orders Samples.history
                     ltac:(repeat constructor)))
           Samples.loaded _ H).
Defined.

Lemma outage_keeps_routes_witness :
  (∀ e, is_Some (Samples.Trace (Some e)))
  ∧ reload_loop Samples.Trace Samples.Unmarshal Samples.config
      Samples.outage Samples.loaded
    = Done tt Samples.loaded Samples.outage_log
  ∧ ∃ log,
      reload_loop Samples.Trace Samples.Unmarshal Samples.config
        Samples.outage Samples.loaded
      = Done tt Samples.loaded log
      ∧ ∀ e, OfRouter e ∉ log.
Proof.
  split; [exact Trace_sample_nonnil|]. split; [vm_compute; reflexivity|].
  apply (outage_keeps_routes Samples.Trace Samples.Unmarshal Samples.config
           Samples.outage Samples.loaded Trace_sample_nonnil).
  intros env Hin. unfold Samples.outage in Hin.
  repeat (apply elem_of_cons in Hin as [->|Hin]);
    [eexists _, _, _; vm_compute; reflexivity..|].
  by apply elem_of_nil in Hin.
Defined.

Lemma turn_ends_with_sleep_witness :
  reload_turn Samples.Trace Samples.Unmarshal Samples.missing
    Samples.config map_to_list Samples.loaded
  = Done tt Samples.loaded
      [OfLoader (EvStat Samples.config);
       Warn "[stack] stat: no such file or directory"; Sleep 5]
  ∧ ∃ log' n,
      [OfLoader (EvStat Samples.config);
       Warn "[stack] stat: no such file or directory"; Sleep 5]
      = log' ++ [Sleep n]
      ∧ (∀ k, Sleep k ∉ log')
      ∧ ((n = 5%Z ∧ ∃ e : string, Warn e ∈ log')
         ∨ (n = 1%Z ∧ ∀ e : string, Warn e ∉ log')).
Proof.
  assert (H : reload_turn Samples.Trace Samples.Unmarshal Samples.missing
    Samples.config map_to_list Samples.loaded
  = Done tt Samples.loaded
      [OfLoader (EvStat Samples.config);
       Warn "[stack] stat: no such file or directory"; Sleep 5]).
  { vm_compute. reflexivity. }
  split; [exact H|].
  apply (turn_ends_with_sleep Samples.Trace Samples.Unmarshal Samples.config
           _ _ _ _ _ H).
Defined.

End MainFacts.
